(** * pwndbg [commands/context.py]: a shallow embedding

    The context command renders the sections of the debugger's context
    view, routes them to their destinations and remembers the last
    lifecycle event.  The embedding follows [pwndbg/commands/context.py]
    function by function and keeps its names.

    Conventions.
    - A Python [str] is a Rocq [string]; one [ascii] stands for one Python
      character, the one with that code point, so [String.length] is
      Python's [len].  Characters beyond U+00FF are outside the model.
    - A Python [int] is a [Z].
    - Exceptions are values of [Exn]; a function that may raise returns
      [Exn + A].
    - Output is a trace of [Event]s (open, write, flush, close), emitted by
      the small monad [IO].
    - The colouring helpers, the banner, the configuration values and the
      inspection backend live outside this file of the repository: they are
      fields of the records [Config], [Ui], [System] and their like, which
      the embedded functions take as arguments. *)

From Stdlib Require Import String Ascii List ZArith Lia Bool.
From Stdlib Require DecimalString HexadecimalString.
Import ListNotations.

Open Scope string_scope.
Open Scope list_scope.

(** ** Python helpers *)

(** [str(i)] and [repr(i)] of an integer. *)
Definition py_str (i : Z) : string :=
  DecimalString.NilZero.string_of_int (Z.to_int i).

(** ['%#x' % i]. *)
Definition py_hex (i : Z) : string :=
  let digits := HexadecimalString.NilZero.string_of_uint (N.to_hex_uint (Z.abs_N i)) in
  if (i <? 0)%Z then "-0x" ++ digits else "0x" ++ digits.

(** [c * n] for a one-character string [c]. *)
Fixpoint py_repeat (c : ascii) (n : nat) : string :=
  match n with
  | O => ""
  | S n' => String c (py_repeat c n')
  end.

(** [s.ljust(w)], also the format spec [{s:{w}}] of a string. *)
Definition ljust (s : string) (w : nat) : string :=
  s ++ py_repeat " " (w - String.length s).

(** The format spec [{i:>{w}}]. *)
Definition rjust (s : string) (w : nat) : string :=
  py_repeat " " (w - String.length s) ++ s.

(** [sep.join(l)]. *)
Fixpoint join (sep : string) (l : list string) : string :=
  match l with
  | [] => ""
  | [x] => x
  | x :: rest => x ++ sep ++ join sep rest
  end.

(** A slice bound brought into [0 .. len], as [l[a:b]] reads it. *)
Definition slice_bound (len i : Z) : Z :=
  if (i <? 0)%Z then Z.max (i + len) 0 else Z.min i len.

(** [l[start:stop]]. *)
Definition py_slice {A : Type} (l : list A) (start stop : Z) : list A :=
  let len := Z.of_nat (List.length l) in
  let a := slice_bound len start in
  let b := slice_bound len stop in
  firstn (Z.to_nat (b - a)) (skipn (Z.to_nat a) l).

(** [enumerate(l, start=k)]. *)
Fixpoint enumerate {A : Type} (l : list A) (k : Z) : list (Z * A) :=
  match l with
  | [] => []
  | x :: rest => (k, x) :: enumerate rest (k + 1)
  end.

(** Python's whitespace ([str.isspace]), for [str.split()] and
    [str.rstrip()]: the tabs and line breaks 9 to 13, the separators 28
    to 31, the blank, the next-line control U+0085 and the no-break space
    U+00A0. *)
Definition is_space (c : ascii) : bool :=
  match nat_of_ascii c with
  | 9 | 10 | 11 | 12 | 13 | 28 | 29 | 30 | 31 | 32 | 133 | 160 => true
  | _ => false
  end.

(** [s.split()]: the maximal runs of non-blank characters.  [cur] is the
    run being read, reversed. *)
Fixpoint split_aux (s : string) (cur : list ascii) : list string :=
  let flush :=
    match cur with
    | [] => []
    | _ => [string_of_list_ascii (rev cur)]
    end in
  match s with
  | EmptyString => flush
  | String c rest =>
      if is_space c then flush ++ split_aux rest []
      else split_aux rest (c :: cur)
  end.

Definition split (s : string) : list string := split_aux s [].

(** ** Exceptions *)

(** The exception classes that the embedded code raises, catches or lets
    through.  [IOError] is Python 3's alias of [OSError]: the two
    constructors keep apart where the error comes from (the terminal query
    raises [OSError]; opening, writing and flushing raise [IOError]), and
    a handler for [IOError] catches both. *)
Inductive Exn : Type :=
| KeyError (key : string)
| IndexError
| ValueError
| OSError
| IOError
| AttributeError
| MemoryError
| GdbError
| UnicodeEncodeError
| UnicodeDecodeError.

(** [except IOError]. *)
Definition is_IOError (e : Exn) : bool :=
  match e with
  | IOError | OSError => true
  | _ => false
  end.

(** ** The output trace *)

(** Where a write lands: the process's standard output, or the file (or
    terminal device) opened under a path. *)
Inductive Dest : Type :=
| Stdout
| File (path : string).

Inductive Event : Type :=
| EvOpen (path : string)            (* open(path, "w"): create or truncate *)
| EvWrite (d : Dest) (data : string)
| EvFlush (d : Dest)
| EvClose (path : string).

Definition Dest_eqb (a b : Dest) : bool :=
  match a, b with
  | Stdout, Stdout => true
  | File p, File q => String.eqb p q
  | _, _ => false
  end.

(** The data written to destination [d], in order. *)
Fixpoint written (d : Dest) (t : list Event) : list string :=
  match t with
  | [] => []
  | EvWrite d' s :: rest =>
      if Dest_eqb d d' then s :: written d rest else written d rest
  | _ :: rest => written d rest
  end.

(** The paths left open by a trace that starts with the paths [opened]
    open: [open] adds one, [close] removes it. *)
Fixpoint left_open (opened : list string) (t : list Event) : list string :=
  match t with
  | [] => opened
  | EvOpen p :: rest => left_open (p :: opened) rest
  | EvClose p :: rest =>
      left_open (filter (fun q => negb (String.eqb p q)) opened) rest
  | _ :: rest => left_open opened rest
  end.

(** ** The monad of output: a trace and a result or an exception *)

Definition IO (A : Type) : Type := list Event * (Exn + A).

Definition ret {A : Type} (a : A) : IO A := ([], inr a).

Definition raise {A : Type} (e : Exn) : IO A := ([], inl e).

Definition bind {A B : Type} (m : IO A) (f : A -> IO B) : IO B :=
  match m with
  | (t, inl e) => (t, inl e)
  | (t, inr a) => let '(t', r) := f a in (t ++ t', r)
  end.

Definition emit (ev : Event) : IO unit := ([ev], inr tt).

Declare Scope io_scope.
Delimit Scope io_scope with io.
Notation "x <- m ;; k" := (bind m (fun x => k))
  (at level 61, m at next level, right associativity) : io_scope.
Notation "m ;; k" := (bind m (fun _ => k))
  (at level 61, right associativity) : io_scope.

(** [for x in l: body(x)]. *)
Fixpoint for_each {A : Type} (l : list A) (body : A -> IO unit) : IO unit :=
  match l with
  | [] => ret tt
  | x :: rest => (body x ;; for_each rest body)%io
  end.

(** ** What the module reads from its surroundings *)

(** The configuration parameters ([pwndbg.config.Parameter] and
    [theme.Parameter]) that the embedded functions read, by value. *)
Record Config : Type := {
  config_clear_screen : bool;       (* context-clear-screen *)
  config_output : string;           (* context-output *)
  config_output_regs : string;      (* context-output-regs *)
  config_output_disasm : string;    (* context-output-disasm *)
  config_output_args : string;      (* context-output-args *)
  config_output_code : string;      (* context-output-code *)
  config_output_stack : string;     (* context-output-stack *)
  config_output_backtrace : string; (* context-output-backtrace *)
  config_context_sections : string; (* context-sections *)
  source_code_lines : Z;            (* context-source-code-lines *)
  highlight_source : bool;          (* highlight-source *)
  code_prefix : string;             (* code-prefix *)
  backtrace_frame_label : string;   (* backtrace-frame-label *)
  backtrace_prefix : string         (* B.config_prefix *)
}.

(** The colouring and layout helpers of [pwndbg.color] and [pwndbg.ui]:
    pure functions from text to text. *)
Record Ui : Type := {
  M_legend : string;
  banner : string -> string;
  C_highlight : string -> string;
  C_prefix : string -> string;
  B_prefix : string -> string;
  B_address : string -> string;
  B_symbol : string -> string;
  B_frame_label : string -> string;
  addrsz : Z -> string;
  message_exit : string -> string;
  message_signal : string -> string;
  message_breakpoint : string -> string
}.

(** The operating system as the output path meets it: the name of the
    terminal on file descriptor 1 ([None] when it is no terminal, where
    [os.ttyname] raises), which operations on which destination fail, and
    the exception a failing write raises: an [IOError] of the device, or
    a [UnicodeEncodeError] for text that the stream's encoding cannot
    hold. *)
Record System : Type := {
  ttyname1 : option string;
  open_fails : string -> bool;
  write_fails : Dest -> string -> bool;
  write_error : Dest -> string -> Exn;
  flush_fails : Dest -> bool
}.

(** ** The output router *)

Definition ESC : ascii := "027"%char.
Definition NL : string := String "010"%char "".

(** [out.write(s)]. *)
Definition write (sys : System) (out : Dest) (s : string) : IO unit :=
  if write_fails sys out s then raise (write_error sys out s)
  else emit (EvWrite out s).

(** [out.flush()]. *)
Definition flush (sys : System) (out : Dest) : IO unit :=
  if flush_fails sys out then raise IOError else emit (EvFlush out).

(** [clear_screen(out)]: cursor to the top-left corner, clear the
    content. *)
Definition clear_screen_seq : string :=
  String ESC "[H" ++ String ESC "[J".

Definition clear_screen (sys : System) (out : Dest) : IO unit :=
  write sys out clear_screen_seq.

(** The context managers [output] hands out: the [StdOutput] wrapper, or
    a file object opened for writing. *)
Inductive Manager : Type :=
| StdOutput
| FileObject (path : string).

(** [__enter__]: the stream the body writes to. *)
Definition enter (m : Manager) : Dest :=
  match m with
  | StdOutput => Stdout
  | FileObject p => File p
  end.

(** [__exit__]: [StdOutput] does nothing, a file object closes. *)
Definition exit (m : Manager) : list Event :=
  match m with
  | StdOutput => []
  | FileObject p => [EvClose p]
  end.

(** [with m as out: body(out)]: [__exit__] runs when the body returns
    and when it raises; neither manager swallows the exception. *)
Definition with_ {A : Type} (m : Manager) (body : Dest -> IO A) : IO A :=
  let '(t, r) := body (enter m) in (t ++ exit m, r).

(** [not config_output_tty or config_output_tty == "stdout"]. *)
Definition is_stdout (config_output_tty : string) : bool :=
  String.eqb config_output_tty "" || String.eqb config_output_tty "stdout".

(** [output(config_output_tty)]. *)
Definition output (sys : System) (config_output_tty : string) : IO Manager :=
  if is_stdout config_output_tty then ret StdOutput
  else if open_fails sys config_output_tty then raise IOError
  else (emit (EvOpen config_output_tty) ;; ret (FileObject config_output_tty))%io.

(** The body of the [with] statement of [show_context]. *)
Definition show_context_body (cfg : Config) (sys : System)
    (content : list string) (out : Dest) : IO unit :=
  ((if config_clear_screen cfg then clear_screen sys out else ret tt) ;;
   for_each content (fun line => write sys out (line ++ NL)) ;;
   flush sys out)%io.

(** [show_context(config_output_tty, content)]. *)
Definition show_context (cfg : Config) (sys : System)
    (config_output_tty : string) (content : list string) : IO unit :=
  (m <- output sys config_output_tty ;;
   with_ m (show_context_body cfg sys content))%io.

(** The stream a destination value resolves to. *)
Definition dest_of (config_output_tty : string) : Dest :=
  if is_stdout config_output_tty then Stdout else File config_output_tty.

(** ** The signal event cache *)

(** The module's global [last_signal]. *)
Record Globals : Type := {
  last_signal : list string
}.

(** The events [gdb.events.cont], [gdb.events.stop] and
    [gdb.events.exited] deliver, as [save_signal] tells them apart.
    [exit_code] is [None] when the event has no such attribute;
    a breakpoint's [location] is [None] for a watchpoint. *)
Inductive GdbEvent : Type :=
| ContinueEvent
| ExitedEvent (exit_code : option Z)
| SignalEvent (stop_signal : string)
| BreakpointEvent (breakpoints : list (option string))
| StopEvent.

(** What [save_signal] asks the inferior: [_is_rr_present()],
    [pwndbg.regs.pc] and [$_siginfo._sifields._sigfault.si_addr]
    ([None] when evaluating it raises [gdb.error]). *)
Record Inferior : Type := {
  is_rr_present : bool;
  regs_pc : Z;
  si_addr : option Z
}.

(** ['%s' % location]. *)
Definition str_location (location : option string) : string :=
  match location with
  | Some l => l
  | None => "None"
  end.

(** [save_signal(signal)]: the global is rebound to a fresh list, which
    the branches then fill. *)
Definition save_signal (ui : Ui) (inf : Inferior) (signal : GdbEvent)
    (g : Globals) : Globals :=
  let result : list string := [] in
  let result :=
    match signal with
    | ExitedEvent exit_code =>
        match exit_code with
        | Some code => result ++ [message_exit ui ("Exited: " ++ py_str code)]
        | None => result
        end
    | SignalEvent stop_signal =>
        let msg := ("Program received signal " ++ stop_signal)%string in
        let msg :=
          if String.eqb stop_signal "SIGSEGV" then
            if is_rr_present inf then
              (msg ++ " (current pc: " ++ py_hex (regs_pc inf) ++ ")")%string
            else
              match si_addr inf with
              | Some a => (msg ++ " (fault address " ++ py_hex a ++ ")")%string
              | None => msg
              end
          else msg in
        result ++ [message_signal ui msg]
    | BreakpointEvent breakpoints =>
        result ++ map (fun location =>
                         message_breakpoint ui ("Breakpoint " ++ str_location location))
                      breakpoints
    | ContinueEvent | StopEvent => result
    end in
  {| last_signal := result |}.

(** [context_signal()]. *)
Definition context_signal (g : Globals) : list string := last_signal g.

(** ** The context orchestrator *)

(** What a call of each of the six section producers does at this
    refresh: it returns its lines, or it raises. *)
Record Rendered : Type := {
  regs_lines : Exn + list string;
  disasm_lines : Exn + list string;
  args_lines : Exn + list string;
  code_lines : Exn + list string;
  stack_lines : Exn + list string;
  backtrace_lines : Exn + list string
}.

(** The dict [context_sections]: [context_sections.get(key, None)] is
    [None] or a producer [func], which stands here for its call
    [func()]. *)
Definition context_sections (p : Rendered) (key : string)
    : option (Exn + list string) :=
  if String.eqb key "r" then Some (regs_lines p)
  else if String.eqb key "d" then Some (disasm_lines p)
  else if String.eqb key "a" then Some (args_lines p)
  else if String.eqb key "c" then Some (code_lines p)
  else if String.eqb key "s" then Some (stack_lines p)
  else if String.eqb key "b" then Some (backtrace_lines p)
  else None.

(** The dict [splited_config_outputs]; [None] is a [KeyError]. *)
Definition splited_config_outputs (cfg : Config) (key : string) : option string :=
  if String.eqb key "r" then Some (config_output_regs cfg)
  else if String.eqb key "d" then Some (config_output_disasm cfg)
  else if String.eqb key "a" then Some (config_output_args cfg)
  else if String.eqb key "c" then Some (config_output_code cfg)
  else if String.eqb key "s" then Some (config_output_stack cfg)
  else if String.eqb key "b" then Some (config_output_backtrace cfg)
  else None.

(** A Python dict from destination to batch, in insertion order. *)
Abbreviation Queue := (list (string * list string)).

Fixpoint dict_mem (key : string) (q : Queue) : bool :=
  match q with
  | [] => false
  | (k, _) :: rest => String.eqb key k || dict_mem key rest
  end.

Fixpoint dict_get (key : string) (q : Queue) : list string :=
  match q with
  | [] => []
  | (k, v) :: rest => if String.eqb key k then v else dict_get key rest
  end.

(** [q[key] = v]: in place when the key is there, at the end when new. *)
Fixpoint dict_set (key : string) (v : list string) (q : Queue) : Queue :=
  match q with
  | [] => [(key, v)]
  | (k, w) :: rest =>
      if String.eqb key k then (k, v) :: rest else (k, w) :: dict_set key v rest
  end.

(** [del q[key]]. *)
Definition dict_del (key : string) (q : Queue) : Queue :=
  filter (fun kv => negb (String.eqb key (fst kv))) q.

(** [l.remove(x)]: the first occurrence goes; [None] is a [ValueError]. *)
Fixpoint list_remove (x : string) (l : list string) : option (list string) :=
  match l with
  | [] => None
  | y :: rest =>
      if String.eqb x y then Some rest
      else option_map (cons y) (list_remove x rest)
  end.

(** [a[0]]. *)
Definition first_char (a : string) : Exn + string :=
  match a with
  | EmptyString => inl IndexError
  | String c _ => inr (String c "")
  end.

(** [[a[0] for a in args]]. *)
Fixpoint first_chars (args : list string) : Exn + list string :=
  match args with
  | [] => inr []
  | a :: rest =>
      match first_char a with
      | inl e => inl e
      | inr k =>
          match first_chars rest with
          | inl e => inl e
          | inr ks => inr (k :: ks)
          end
      end
  end.

(** One turn of the loop over [tmp_args]: a section whose destination is
    not ['nosplit'] moves from [args] to its destination's batch. *)
Definition split_step (cfg : Config) (p : Rendered)
    (st : Queue * list string) (tmp_arg : string) : Exn + (Queue * list string) :=
  let '(splited_output_queue, args) := st in
  match splited_config_outputs cfg tmp_arg with
  | None => inl (KeyError tmp_arg)
  | Some dest =>
      if negb (String.eqb dest "nosplit") then
        match context_sections p tmp_arg with
        | Some func =>
            let tty_key := dest in
            let q :=
              if negb (dict_mem tty_key splited_output_queue)
              then dict_set tty_key [] splited_output_queue
              else splited_output_queue in
            match func with
            | inl e => inl e
            | inr lines =>
                let q := dict_set tty_key (dict_get tty_key q ++ lines) q in
                match list_remove tmp_arg args with
                | Some args' => inr (q, args')
                | None => inl ValueError
                end
            end
        | None => inr st
        end
      else inr st
  end.

Fixpoint split_loop (cfg : Config) (p : Rendered) (tmp_args : list string)
    (st : Queue * list string) : Exn + (Queue * list string) :=
  match tmp_args with
  | [] => inr st
  | tmp_arg :: rest =>
      match split_step cfg p st tmp_arg with
      | inl e => inl e
      | inr st' => split_loop cfg p rest st'
      end
  end.

(** The loop over the sections that stay on the default stream. *)
Fixpoint render_args (p : Rendered) (args : list string) (result : list string)
    : Exn + list string :=
  match args with
  | [] => inr result
  | arg :: rest =>
      match context_sections p arg with
      | Some func =>
          match func with
          | inl e => inl e
          | inr lines => render_args p rest (result ++ lines)
          end
      | None => render_args p rest result
      end
  end.

(** The tokens a refresh works on: the command's arguments, or the
    configured section order when there are none. *)
Definition requested_args (cfg : Config) (subcontext : option (list string))
    : list string :=
  let args := match subcontext with None => [] | Some l => l end in
  if Nat.eqb (List.length args) 0
  then split (config_context_sections cfg) else args.

(** [context(subcontext)] up to the delivery: the batch for the primary
    destination and the batches that are written on their own. *)
Definition context_batches (cfg : Config) (ui : Ui) (sys : System)
    (p : Rendered) (g : Globals) (subcontext : option (list string))
    : Exn + (list string * Queue) :=
  let args := requested_args cfg subcontext in
  match first_chars args with
  | inl e => inl e
  | inr args =>
      match split_loop cfg p args ([], args) with
      | inl e => inl e
      | inr (splited_output_queue, args) =>
          let result := match args with [] => [] | _ => [M_legend ui] end in
          match render_args p args result with
          | inl e => inl e
          | inr result =>
              match ttyname1 sys with
              | None => inl OSError
              | Some current_tty =>
                  let '(result, splited_output_queue) :=
                    if dict_mem current_tty splited_output_queue
                    then (result ++ dict_get current_tty splited_output_queue,
                          dict_del current_tty splited_output_queue)
                    else (result, splited_output_queue) in
                  let result :=
                    if Nat.ltb 0 (List.length result)
                    then result ++ [banner ui ""] else result in
                  let result := result ++ context_signal g in
                  inr (result, splited_output_queue)
              end
          end
      end
  end.

(** [context(subcontext)]. *)
Definition context (cfg : Config) (ui : Ui) (sys : System)
    (p : Rendered) (g : Globals) (subcontext : option (list string)) : IO unit :=
  match context_batches cfg ui sys p g subcontext with
  | inl e => raise e
  | inr (result, splited_output_queue) =>
      (show_context cfg sys (config_output cfg) result ;;
       for_each splited_output_queue
         (fun '(tty, content) => show_context cfg sys tty content))%io
  end.

(** ** The source window *)

(** [gdb.selected_frame().find_sal()]: the symbol table's file
    ([sal.symtab.fullname()], [None] when [sal.symtab] is [None]) and the
    line. *)
Record Sal : Type := {
  symtab : option string;
  line : Z
}.

(** The rows [start .. end) of the file around [closest_line], each with
    its line number: the slice that the formatting loop enumerates, and
    the bound [end] that fixes the width of the number column. *)
Definition source_window (cfg : Config) (closest_line : Z) (source : list string)
    : Z * list (Z * string) :=
  let n := source_code_lines cfg in
  let start := Z.max (closest_line - 1 - n / 2) 0 in
  let end_ := Z.min (closest_line - 1 + n / 2 + 1) (Z.of_nat (List.length source)) in
  let source := py_slice source start end_ in
  (end_, enumerate source (start + 1)).

(** One turn of the formatting loop.  [C.highlight] wraps the format
    string in colour codes, which [format] leaves as they are: it is
    applied to the formatted line here. *)
Definition format_source_line (cfg : Config) (ui : Ui)
    (closest_line : Z) (num_width prefix_width : nat)
    (numbered : Z * string) : string :=
  let '(line_number, code) := numbered in
  let prefix_sign := code_prefix cfg in
  let shown_prefix :=
    if (line_number =? closest_line)%Z then C_prefix ui prefix_sign else "" in
  let formatted :=
    (" " ++ ljust shown_prefix prefix_width ++ " "
         ++ rjust (py_str line_number) num_width ++ " " ++ code)%string in
  if highlight_source cfg && (line_number =? closest_line)%Z
  then C_highlight ui formatted else formatted.

(** [get_filename_and_formatted_source()].  [get_highlight_source] is the
    memoized reader of the file's (highlighted) lines; the [try] catches
    its [IOError] and lets every other exception through. *)
Definition get_filename_and_formatted_source (cfg : Config) (ui : Ui)
    (sal : Sal) (get_highlight_source : string -> Exn + list string)
    : Exn + (string * list string) :=
  match symtab sal with
  | None => inr ("", [])
  | Some filename =>
      let closest_line := line sal in
      match get_highlight_source filename with
      | inl e => if is_IOError e then inr ("", []) else inl e
      | inr source =>
          match source with
          | [] => inr ("", [])
          | _ =>
              let '(end_, numbered) := source_window cfg closest_line source in
              let num_width := String.length (py_str end_) in
              let prefix_width := String.length (code_prefix cfg) in
              inr (filename,
                   map (format_source_line cfg ui closest_line num_width prefix_width)
                       numbered)
          end
      end
  end.

(** ** The backtrace walker *)

(** The frame chain of the inspection backend: [gdb.selected_frame()],
    [Frame.older()], [Frame.newer()] (each may raise, or return [None] at
    the end of the chain), [Frame.pc()], equality of frames, and
    [pwndbg.symbol.get]. *)
Record Frames (Frame : Type) : Type := {
  frame_eqb : Frame -> Frame -> bool;
  selected_frame : Frame;
  older : Frame -> Exn + option Frame;
  newer : Frame -> Exn + option Frame;
  frame_pc : Frame -> Z;
  symbol_get : Z -> string
}.

Arguments frame_eqb {Frame}.
Arguments selected_frame {Frame}.
Arguments older {Frame}.
Arguments newer {Frame}.
Arguments frame_pc {Frame}.
Arguments symbol_get {Frame}.

(** The first [for] loop: up to [n] steps to older frames; a
    [gdb.MemoryError] or the end of the chain stops the walk. *)
Fixpoint walk_older {Frame : Type} (fr : Frames Frame) (n : nat)
    (oldest_frame : Frame) : Exn + Frame :=
  match n with
  | O => inr oldest_frame
  | S n' =>
      match older fr oldest_frame with
      | inl MemoryError => inr oldest_frame
      | inl e => inl e
      | inr None => inr oldest_frame
      | inr (Some candidate) => walk_older fr n' candidate
      end
  end.

(** The second [for] loop: up to [n] steps to newer frames. *)
Fixpoint walk_newer {Frame : Type} (fr : Frames Frame) (n : nat)
    (newest_frame : Frame) : Exn + Frame :=
  match n with
  | O => inr newest_frame
  | S n' =>
      match newer fr newest_frame with
      | inl e => inl e
      | inr None => inr newest_frame
      | inr (Some candidate) => walk_newer fr n' candidate
      end
  end.

(** The position marker of a line: the configured prefix on the selected
    frame, blanks of the same width elsewhere. *)
Definition bt_marker {Frame : Type} (cfg : Config) (ui : Ui) (fr : Frames Frame)
    (this_frame frame : Frame) : string :=
  let bt_prefix := backtrace_prefix cfg in
  let prefix :=
    if frame_eqb fr frame this_frame then bt_prefix
    else py_repeat " " (String.length bt_prefix) in
  (" " ++ B_prefix ui prefix)%string.

(** The frame label and the address, with the symbol when there is one. *)
Definition bt_rest {Frame : Type} (cfg : Config) (ui : Ui) (fr : Frames Frame)
    (frame : Frame) (i : Z) : list string :=
  let addrsz := B_address ui (addrsz ui (frame_pc fr frame)) in
  let symbol := B_symbol ui (symbol_get fr (frame_pc fr frame)) in
  let addrsz :=
    if String.eqb symbol "" then addrsz else (addrsz ++ " " ++ symbol)%string in
  [B_frame_label ui (backtrace_frame_label cfg ++ py_str i)%string; addrsz].

(** The line the [while] loop appends for [frame], the [i]-th it visits. *)
Definition bt_line {Frame : Type} (cfg : Config) (ui : Ui) (fr : Frames Frame)
    (this_frame frame : Frame) (i : Z) : string :=
  join " " (bt_marker cfg ui fr this_frame frame :: bt_rest cfg ui fr frame i).

(** The [while True] loop, from [frame] on: [None] when [fuel] turns do
    not reach the [break].  Stepping past the last frame leaves [None] in
    [frame], and [frame.pc()] raises an [AttributeError]. *)
Fixpoint bt_loop {Frame : Type} (cfg : Config) (ui : Ui) (fr : Frames Frame)
    (this_frame oldest_frame : Frame) (fuel : nat) (frame : Frame) (i : Z)
    : option (Exn + list string) :=
  match fuel with
  | O => None
  | S fuel' =>
      let line := bt_line cfg ui fr this_frame frame i in
      if frame_eqb fr frame oldest_frame then Some (inr [line])
      else
        match older fr frame with
        | inl e => Some (inl e)
        | inr None => Some (inl AttributeError)
        | inr (Some frame') =>
            match bt_loop cfg ui fr this_frame oldest_frame fuel' frame' (i + 1) with
            | None => None
            | Some (inl e) => Some (inl e)
            | Some (inr lines) => Some (inr (line :: lines))
            end
        end
  end.

(** [context_backtrace(frame_count, with_banner)]. *)
Definition context_backtrace {Frame : Type} (cfg : Config) (ui : Ui)
    (fr : Frames Frame) (fuel : nat) (frame_count : Z) (with_banner : bool)
    : option (Exn + list string) :=
  let result := if with_banner then [banner ui "backtrace"] else [] in
  let this_frame := selected_frame fr in
  match walk_older fr (Z.to_nat frame_count) this_frame with
  | inl e => Some (inl e)
  | inr oldest_frame =>
      match walk_newer fr (Z.to_nat frame_count) this_frame with
      | inl e => Some (inl e)
      | inr newest_frame =>
          match bt_loop cfg ui fr this_frame oldest_frame fuel newest_frame 0 with
          | None => None
          | Some (inl e) => Some (inl e)
          | Some (inr lines) => Some (inr (result ++ lines))
          end
      end
  end.

(** The frames the [while] loop visits, in order: the same walk as
    [bt_loop], keeping the frame where that keeps the line. *)
Fixpoint bt_frames {Frame : Type} (fr : Frames Frame)
    (oldest_frame : Frame) (fuel : nat) (frame : Frame)
    : option (Exn + list Frame) :=
  match fuel with
  | O => None
  | S fuel' =>
      if frame_eqb fr frame oldest_frame then Some (inr [frame])
      else
        match older fr frame with
        | inl e => Some (inl e)
        | inr None => Some (inl AttributeError)
        | inr (Some frame') =>
            match bt_frames fr oldest_frame fuel' frame' with
            | None => None
            | Some (inl e) => Some (inl e)
            | Some (inr frames) => Some (inr (frame :: frames))
            end
        end
  end.

(** ** The session: events and refreshes in the order the host runs them *)

(** The host calls [save_signal] on a lifecycle event and [context] on a
    refresh, one at a time.  [save_signal] is the only function that
    assigns [last_signal]; [context] reads it through [context_signal]. *)
Inductive Action : Type :=
| Notify (signal : GdbEvent)
| Refresh (subcontext : option (list string)).

Definition step (cfg : Config) (ui : Ui) (sys : System) (inf : Inferior)
    (p : Rendered) (st : Globals * list Event) (a : Action)
    : Globals * list Event :=
  let '(g, t) := st in
  match a with
  | Notify signal => (save_signal ui inf signal g, t)
  | Refresh subcontext => (g, t ++ fst (context cfg ui sys p g subcontext))
  end.

Definition run (cfg : Config) (ui : Ui) (sys : System) (inf : Inferior)
    (p : Rendered) (actions : list Action) (st : Globals * list Event)
    : Globals * list Event :=
  fold_left (step cfg ui sys inf p) actions st.

(** ** Frame chains for the examples *)

(** A well-formed chain of [len] frames, numbered from the newest (0) to
    the oldest, as gdb numbers frame levels. *)
Definition chain (len selected : nat) (pc : nat -> Z) (sym : Z -> string)
    : Frames nat := {|
  frame_eqb := Nat.eqb;
  selected_frame := selected;
  older := fun f => inr (if Nat.ltb (S f) len then Some (S f) else None);
  newer := fun f => inr (match f with
                         | O => None
                         | S f' => if Nat.ltb f len then Some f' else None
                         end);
  frame_pc := pc;
  symbol_get := sym
|}.

(** A malformed chain: frame 0 is selected, its caller is frame 9, but
    the newer frame 1 does not lead back to frame 0: its callers are 2, 3
    and then 9. *)
Definition detour_chain : Frames nat := {|
  frame_eqb := Nat.eqb;
  selected_frame := 0%nat;
  older := fun f => inr (match f with
                         | 0 => Some 9
                         | 1 => Some 2
                         | 2 => Some 3
                         | 3 => Some 9
                         | _ => None
                         end)%nat;
  newer := fun f => inr (match f with
                         | 0 => Some 1
                         | _ => None
                         end)%nat;
  frame_pc := fun f => Z.of_nat f;
  symbol_get := fun _ => ""
|}.

(** A malformed chain with a cycle: the newer frame 1 is its own
    caller. *)
Definition cyclic_chain : Frames nat := {|
  frame_eqb := Nat.eqb;
  selected_frame := 0%nat;
  older := fun f => inr (match f with
                         | 0 => None
                         | _ => Some 1
                         end)%nat;
  newer := fun f => inr (match f with
                         | 0 => Some 1
                         | _ => None
                         end)%nat;
  frame_pc := fun f => Z.of_nat f;
  symbol_get := fun _ => ""
|}.

(** A cyclic chain where [older] undoes [newer]: three frames in a
    ring. *)
Definition ring_chain : Frames nat := {|
  frame_eqb := Nat.eqb;
  selected_frame := 0%nat;
  older := fun f => inr (match f with
                         | 0 => Some 1
                         | 1 => Some 2
                         | 2 => Some 0
                         | _ => None
                         end)%nat;
  newer := fun f => inr (match f with
                         | 0 => Some 2
                         | 1 => Some 0
                         | 2 => Some 1
                         | _ => None
                         end)%nat;
  frame_pc := fun f => Z.of_nat f;
  symbol_get := fun _ => ""
|}.

(** ** Concrete surroundings for the examples *)

Definition plain_ui : Ui := {|
  M_legend := "LEGEND";
  banner := fun title => ("--" ++ title ++ "--")%string;
  C_highlight := fun s => ("<" ++ s ++ ">")%string;
  C_prefix := fun s => s;
  B_prefix := fun s => s;
  B_address := fun s => s;
  B_symbol := fun s => s;
  B_frame_label := fun s => s;
  addrsz := py_hex;
  message_exit := fun s => s;
  message_signal := fun s => s;
  message_breakpoint := fun s => s
|}.

(** The default values of the parameters, except for the clear-screen
    flag, the primary output and the disasm destination. *)
Definition config_with (clear : bool) (primary disasm : string) : Config := {|
  config_clear_screen := clear;
  config_output := primary;
  config_output_regs := "nosplit";
  config_output_disasm := disasm;
  config_output_args := "nosplit";
  config_output_code := "nosplit";
  config_output_stack := "nosplit";
  config_output_backtrace := "nosplit";
  config_context_sections := "regs disasm code stack backtrace";
  source_code_lines := 10;
  highlight_source := true;
  code_prefix := ">";
  backtrace_frame_label := "f ";
  backtrace_prefix := ">"
|}.

Definition default_config : Config := config_with false "stdout" "nosplit".

(** The default configuration with a blank as the backtrace prefix. *)
Definition blank_prefix_config : Config := {|
  config_clear_screen := false;
  config_output := "stdout";
  config_output_regs := "nosplit";
  config_output_disasm := "nosplit";
  config_output_args := "nosplit";
  config_output_code := "nosplit";
  config_output_stack := "nosplit";
  config_output_backtrace := "nosplit";
  config_context_sections := "regs disasm code stack backtrace";
  source_code_lines := 10;
  highlight_source := true;
  code_prefix := ">";
  backtrace_frame_label := "f ";
  backtrace_prefix := " "
|}.

(** A system where nothing fails. *)
Definition system_with (tty : option string) : System := {|
  ttyname1 := tty;
  open_fails := fun _ => false;
  write_fails := fun _ _ => false;
  write_error := fun _ _ => IOError;
  flush_fails := fun _ => false
|}.

(** A system where every write fails. *)
Definition broken_pipe (tty : option string) : System := {|
  ttyname1 := tty;
  open_fails := fun _ => false;
  write_fails := fun _ _ => true;
  write_error := fun _ _ => IOError;
  flush_fails := fun _ => false
|}.

Definition some_lines : Rendered := {|
  regs_lines := inr ["REGS"; "rax 0"];
  disasm_lines := inr ["DISASM"; "nop"];
  args_lines := inr [];
  code_lines := inr ["CODE"];
  stack_lines := inr ["STACK"; "00 rsp"];
  backtrace_lines := inr ["BACKTRACE"; "f 0"]
|}.

Definition quiet_inferior : Inferior := {|
  is_rr_present := false;
  regs_pc := 4096;
  si_addr := Some 0%Z
|}.

Definition no_signal : Globals := {| last_signal := [] |}.

(** ** Vocabulary of the statements *)

(** An event that writes to or flushes the stream [d]. *)
Definition on_stream (d : Dest) (ev : Event) : bool :=
  match ev with
  | EvWrite d' _ | EvFlush d' => Dest_eqb d d'
  | _ => false
  end.

(** An event that touches the destination value [tty]: its stream, or
    opening and closing its path. *)
Definition touches (tty : string) (ev : Event) : bool :=
  match ev with
  | EvWrite d _ | EvFlush d => Dest_eqb (dest_of tty) d
  | EvOpen p | EvClose p => negb (is_stdout tty) && String.eqb tty p
  end.

(** An event on the path [path]: opening or closing it, writing to or
    flushing the file opened under it. *)
Definition uses_path (path : string) (ev : Event) : bool :=
  match ev with
  | EvOpen q | EvClose q => String.eqb path q
  | EvWrite (File q) _ | EvFlush (File q) => String.eqb path q
  | _ => false
  end.

(** A key of the dict [splited_config_outputs]. *)
Definition known_key (cfg : Config) (key : string) : Prop :=
  splited_config_outputs cfg key <> None.

(** The section under [key] leaves the default stream. *)
Definition moves (cfg : Config) (key : string) : bool :=
  match splited_config_outputs cfg key with
  | Some dest => negb (String.eqb dest "nosplit")
  | None => false
  end.

(** No open, write or flush fails. *)
Definition reliable (sys : System) : Prop :=
  (forall path, open_fails sys path = false) /\
  (forall d s, write_fails sys d s = false) /\
  (forall d, flush_fails sys d = false).

(** What one delivery writes: the clear-screen sequence when the flag is
    set, then every line with its newline. *)
Definition payload (cfg : Config) (content : list string) : list string :=
  (if config_clear_screen cfg then [clear_screen_seq] else [])
    ++ map (fun line => (line ++ NL)%string) content.

(** The trace of one delivery that meets no failure. *)
Definition delivery (cfg : Config) (tty : string) (content : list string)
    : list Event :=
  (if is_stdout tty then [] else [EvOpen tty])
    ++ map (EvWrite (dest_of tty)) (payload cfg content)
    ++ [EvFlush (dest_of tty)]
    ++ (if is_stdout tty then [] else [EvClose tty]).

(** The trace of the deliveries of the batches of a queue, in its
    order, that meet no failure. *)
Definition deliveries (cfg : Config) (q : Queue) : list Event :=
  flat_map (fun kv => delivery cfg (fst kv) (snd kv)) q.

(** The consecutive integers [k, k+1, ..], [n] of them. *)
Fixpoint Zseq (k : Z) (n : nat) : list Z :=
  match n with
  | O => []
  | S n' => k :: Zseq (k + 1) n'
  end.

(** [older] undoes [newer]: the frame that [newer] reaches from [x] has
    [x] as its older frame. *)
Definition newer_older_inverse {Frame : Type} (fr : Frames Frame) : Prop :=
  forall x y, newer fr x = inr (Some y) -> older fr y = inr (Some x).

(** [n] successful [older] steps lead from [a] to [b]. *)
Inductive older_path {Frame : Type} (fr : Frames Frame)
    : nat -> Frame -> Frame -> Prop :=
| older_path_here : forall a, older_path fr 0 a a
| older_path_step : forall n a b c,
    older fr a = inr (Some b) -> older_path fr n b c ->
    older_path fr (S n) a c.

(** ** Further vocabulary *)

(** The producer under [key], if there is one, returns. *)
Definition returns (p : Rendered) (key : string) : Prop :=
  match context_sections p key with
  | Some (inl _) => False
  | _ => True
  end.

(** The producer under [key] raises [e]. *)
Definition raises (p : Rendered) (key : string) (e : Exn) : Prop :=
  context_sections p key = Some (inl e).

(** The lines of the section under [key], where its producer returns;
    none for a key without a producer. *)
Definition section_lines (p : Rendered) (key : string) : list string :=
  match context_sections p key with
  | Some (inr lines) => lines
  | _ => []
  end.

(** The section under [key] is configured to the destination [dest], and
    that is not ['nosplit']. *)
Definition sent_to (cfg : Config) (dest key : string) : bool :=
  match splited_config_outputs cfg key with
  | Some d => negb (String.eqb d "nosplit") && String.eqb d dest
  | None => false
  end.

(** The section under [key] stays on the default stream: its destination
    is 'nosplit' (or it has none). *)
Definition stays (cfg : Config) (key : string) : bool := negb (moves cfg key).


(** The sections of [some_lines], except that the backtrace producer
    raises the [gdb.MemoryError] of an unreadable frame. *)
Definition unreadable_backtrace : Rendered := {|
  regs_lines := regs_lines some_lines;
  disasm_lines := disasm_lines some_lines;
  args_lines := args_lines some_lines;
  code_lines := code_lines some_lines;
  stack_lines := stack_lines some_lines;
  backtrace_lines := inl MemoryError
|}.

(** Text that the ASCII encoding cannot hold. *)
Fixpoint beyond_ascii (s : string) : bool :=
  match s with
  | EmptyString => false
  | String c rest => Nat.leb 128 (nat_of_ascii c) || beyond_ascii rest
  end.

(** A system whose files are opened with the ASCII encoding: writing
    text beyond it to a file raises a [UnicodeEncodeError]; nothing else
    fails. *)
Definition ascii_only (tty : option string) : System := {|
  ttyname1 := tty;
  open_fails := fun _ => false;
  write_fails := fun d s => match d with File _ => beyond_ascii s | Stdout => false end;
  write_error := fun _ _ => UnicodeEncodeError;
  flush_fails := fun _ => false
|}.

(** The last lifecycle event among [actions], if any. *)
Fixpoint last_event (actions : list Action) : option GdbEvent :=
  match actions with
  | [] => None
  | a :: rest =>
      match last_event rest with
      | Some signal => Some signal
      | None =>
          match a with
          | Notify signal => Some signal
          | Refresh _ => None
          end
      end
  end.

(** A chain of one frame whose caller cannot be read: [older] raises a
    [gdb.MemoryError]. *)
Definition unreadable_caller : Frames nat := {|
  frame_eqb := Nat.eqb;
  selected_frame := 0%nat;
  older := fun _ => inl MemoryError;
  newer := fun _ => inr None;
  frame_pc := fun f => Z.of_nat f;
  symbol_get := fun _ => ""
|}.

(** The selected frame 1 is the outermost one and has a newer frame 0,
    whose caller cannot be read. *)
Definition unreadable_inner : Frames nat := {|
  frame_eqb := Nat.eqb;
  selected_frame := 1%nat;
  older := fun f => match f with
                    | O => inl MemoryError
                    | _ => inr None
                    end;
  newer := fun f => inr (match f with
                         | 1 => Some 0
                         | _ => None
                         end)%nat;
  frame_pc := fun f => Z.of_nat f;
  symbol_get := fun _ => ""
|}.

(** ** Validation of the section order *)

(** [c.lower()] and [c.upper()] on ASCII letters. *)
Definition lower_char (c : ascii) : ascii :=
  let n := nat_of_ascii c in
  if (Nat.leb 65 n && Nat.leb n 90)%bool then ascii_of_nat (n + 32) else c.

Definition upper_char (c : ascii) : ascii :=
  let n := nat_of_ascii c in
  if (Nat.leb 97 n && Nat.leb n 122)%bool then ascii_of_nat (n - 32) else c.

(** [s.lower()] and [s.upper()]. *)
Fixpoint py_lower (s : string) : string :=
  match s with
  | EmptyString => EmptyString
  | String c rest => String (lower_char c) (py_lower rest)
  end.

Fixpoint py_upper (s : string) : string :=
  match s with
  | EmptyString => EmptyString
  | String c rest => String (upper_char c) (py_upper rest)
  end.

(** [x in l] for strings. *)
Fixpoint str_in (x : string) (l : list string) : bool :=
  match l with
  | [] => false
  | y :: rest => String.eqb x y || str_in x rest
  end.

(** The names of the functions in [context_sections.values()], with
    their prefix [context_] taken off. *)
Definition valid_values : list string :=
  ["regs"; "disasm"; "args"; "code"; "stack"; "backtrace"].

(** The default of the parameter [context-sections], which
    [revert_default()] puts back. *)
Definition default_context_sections : string :=
  "regs disasm code stack backtrace".

(** The loop of [validate_context_sections] over the tokens of the
    value: the first token that is no valid name, if there is one. *)
Fixpoint first_invalid (sections : list string) : option string :=
  match sections with
  | [] => None
  | section :: rest =>
      if negb (str_in section valid_values) then Some section
      else first_invalid rest
  end.

(** [validate_context_sections()], the trigger that runs when the
    parameter [context-sections] is set to [value]: the value the
    parameter has afterwards and the lines that were printed.  [warn] is
    [message.warn]. *)
Definition validate_context_sections (warn : string -> string) (value : string)
    : string * list string :=
  if String.eqb value "" || str_in (py_lower value) ["none"; "empty"] then
    ("", [warn ("Sections set to be empty. FYI valid values are: "
                  ++ join ", " valid_values)%string])
  else
    match first_invalid (split value) with
    | Some section =>
        (default_context_sections,
         [warn ("Invalid section: " ++ section ++ ", valid values: "
                  ++ join ", " valid_values)%string;
          warn "(setting none of them like '' will make sections not appear)"])
    | None => (value, [])
    end.

(** A configuration with [value] as its section order. *)
Definition with_sections (cfg : Config) (value : string) : Config := {|
  config_clear_screen := config_clear_screen cfg;
  config_output := config_output cfg;
  config_output_regs := config_output_regs cfg;
  config_output_disasm := config_output_disasm cfg;
  config_output_args := config_output_args cfg;
  config_output_code := config_output_code cfg;
  config_output_stack := config_output_stack cfg;
  config_output_backtrace := config_output_backtrace cfg;
  config_context_sections := value;
  source_code_lines := source_code_lines cfg;
  highlight_source := highlight_source cfg;
  code_prefix := code_prefix cfg;
  backtrace_frame_label := backtrace_frame_label cfg;
  backtrace_prefix := backtrace_prefix cfg
|}.

(** ** The register listing *)

(** What [get_regs] reads of [pwndbg.regs]: the register names of the
    architecture (general purpose, frame, stack, return address, program
    counter, flags; a name may be [None]), which names the backend knows
    ([reg in pwndbg.regs]), their values, the names that changed since
    the last stop and the values of the last stop. *)
Record Registers : Type := {
  regs_gpr : list string;
  regs_frame : option string;
  regs_stack : option string;
  regs_retaddr : list string;
  regs_current_pc : option string;
  regs_flags : list string;
  regs_known : string -> bool;
  regs_value : string -> Z;
  regs_changed : list string;
  regs_last : string -> option Z
}.

(** The helpers of [pwndbg.color.context] and [pwndbg.chain] that format
    a register line.  [C_format_flags value reg last] stands for
    [C.format_flags(value, pwndbg.regs.flags[reg], last)]. *)
Record RegsUi : Type := {
  C_register : string -> string;
  C_register_changed : string -> string;
  config_register_changed_marker : string;
  C_format_flags : Z -> string -> Z -> string;
  chain_format : Z -> string
}.

(** The line of one known register: the change marker (blanks of its
    width when the register did not change), the name, left-justified to
    four characters and in upper case, and the value. *)
Definition reg_line (rui : RegsUi) (rs : Registers) (reg : string) : string :=
  let value := regs_value rs reg in
  let regname := C_register rui (py_upper (ljust reg 4)) in
  let change_marker := config_register_changed_marker rui in
  let m :=
    if negb (str_in reg (regs_changed rs))
    then py_repeat " " (String.length change_marker)
    else C_register_changed rui change_marker in
  let desc :=
    if str_in reg (regs_flags rs)
    then C_format_flags rui value reg
           (match regs_last rs reg with Some v => v | None => 0%Z end)
    else chain_format rui value in
  (m ++ regname ++ " " ++ desc)%string.

(** The loop of [get_regs] over the registers. *)
Fixpoint regs_loop (rui : RegsUi) (rs : Registers) (regs : list (option string))
    : list string :=
  match regs with
  | [] => []
  | None :: rest => regs_loop rui rs rest
  | Some reg :: rest =>
      if negb (regs_known rs reg) then regs_loop rui rs rest
      else reg_line rui rs reg :: regs_loop rui rs rest
  end.

(** [get_regs] applied to the registers [regs], under the parameters [show-retaddr-reg] and
    [show-flags]. *)
Definition get_regs (show_retaddr_reg show_flags : bool) (rui : RegsUi)
    (rs : Registers) (regs : list (option string)) : list string :=
  let no_regs := match regs with [] => true | _ => false end in
  let regs :=
    if no_regs && show_retaddr_reg then
      map Some (regs_gpr rs) ++ [regs_frame rs; regs_stack rs]
        ++ map Some (regs_retaddr rs) ++ [regs_current_pc rs]
    else if no_regs then
      map Some (regs_gpr rs)
        ++ [regs_frame rs; regs_stack rs; regs_current_pc rs]
    else regs in
  let regs := if show_flags then regs ++ map Some (regs_flags rs) else regs in
  regs_loop rui rs regs.

(** [context_regs()]. *)
Definition context_regs (show_retaddr_reg show_flags : bool) (ui : Ui)
    (rui : RegsUi) (rs : Registers) : list string :=
  banner ui "registers" :: get_regs show_retaddr_reg show_flags rui rs [].

(** The registers of a listing that are named and known to the backend. *)
Definition listed (rs : Registers) (regs : list (option string)) : list string :=
  filter (regs_known rs)
    (flat_map (fun reg => match reg with Some name => [name] | None => [] end) regs).

(** An x86-64 register set for the examples, without a frame register
    set up. *)
Definition amd64_regs : Registers := {|
  regs_gpr := ["rax"; "rbx"];
  regs_frame := None;
  regs_stack := Some "rsp";
  regs_retaddr := [];
  regs_current_pc := Some "rip";
  regs_flags := ["eflags"];
  regs_known := fun reg => str_in reg ["rax"; "rbx"; "rsp"; "rip"; "eflags"];
  regs_value := fun reg => if String.eqb reg "rax" then 1%Z else 0%Z;
  regs_changed := ["rax"];
  regs_last := fun _ => None
|}.

Definition plain_regs_ui : RegsUi := {|
  C_register := fun s => s;
  C_register_changed := fun s => s;
  config_register_changed_marker := "*";
  C_format_flags := fun value _ _ => ("flags " ++ py_hex value)%string;
  chain_format := py_hex
|}.

(** ** The disassembly section *)

(** The loop [while len(result) < code_lines + 1: result.append('')];
    [None] when [fuel] turns do not end it. *)
Fixpoint pad_loop (fuel : nat) (code_lines : Z) (result : list string)
    : option (list string) :=
  match fuel with
  | O => None
  | S fuel' =>
      if (Z.of_nat (List.length result) <? code_lines + 1)%Z
      then pad_loop fuel' code_lines (result ++ [""])
      else Some result
  end.

(** [context_disasm()].  [code_lines] is the parameter
    [context-code-lines], [emulate] the parameter [emulate], and
    [nearpc emulate lines] stands for
    [pwndbg.commands.nearpc.nearpc(to_string=True, emulate=emulate, lines=lines)]. *)
Definition context_disasm (ui : Ui) (emulate : bool) (code_lines : Z)
    (nearpc : bool -> Z -> list string) (fuel : nat) : option (list string) :=
  let result := nearpc emulate (code_lines / 2)%Z in
  match pad_loop fuel code_lines result with
  | Some result => Some ([banner ui "disasm"] ++ result)
  | None => None
  end.

(** ** The cached source and the code section *)

(** The characters at which [str.splitlines()] breaks a line: line
    feed, vertical tab, form feed, carriage return, the file, group and
    record separators and the next-line control U+0085. *)
Definition is_linebreak (c : ascii) : bool :=
  match nat_of_ascii c with
  | 10 | 11 | 12 | 13 | 28 | 29 | 30 | 133 => true
  | _ => false
  end.

(** [s.splitlines()]: a line ends at a line break, a carriage return
    followed by a line feed counting as one; the text after the last
    break is a line when it is not empty.  [cur] is the line being read,
    reversed. *)
Fixpoint splitlines_aux (s : string) (cur : list ascii) : list string :=
  match s with
  | EmptyString =>
      match cur with
      | [] => []
      | _ => [string_of_list_ascii (rev cur)]
      end
  | String c rest =>
      if is_linebreak c then
        string_of_list_ascii (rev cur) ::
          match rest with
          | String c2 rest2 =>
              if (Ascii.eqb c "013" && Ascii.eqb c2 "010")%bool
              then splitlines_aux rest2 []
              else splitlines_aux rest []
          | EmptyString => splitlines_aux rest []
          end
      else splitlines_aux rest (c :: cur)
  end.

Definition splitlines (s : string) : list string := splitlines_aux s [].

(** [s.rstrip()]: the string without its trailing whitespace. *)
Fixpoint rstrip (s : string) : string :=
  match s with
  | EmptyString => EmptyString
  | String c rest =>
      match rstrip rest with
      | EmptyString => if is_space c then EmptyString else String c EmptyString
      | kept => String c kept
      end
  end.

(** [get_highlight_source(filename)], without its memoization: the lines
    of the file, highlighted when [syntax-highlight] is set, each without
    its trailing whitespace.  [read_file] is the [with] statement that
    opens the file as UTF-8 and reads it: it gives the text, or raises
    (an [IOError] when the file cannot be opened or read, a
    [UnicodeDecodeError] when its bytes are no UTF-8);
    [H_syntax_highlight] is [H.syntax_highlight]. *)
Definition get_highlight_source (syntax_highlight : bool)
    (H_syntax_highlight : string -> string -> string)
    (read_file : string -> Exn + string) (filename : string)
    : Exn + list string :=
  match read_file filename with
  | inl e => inl e
  | inr source =>
      let source :=
        if syntax_highlight then H_syntax_highlight source filename else source in
      inr (map rstrip (splitlines source))
  end.

(** [context_code()].  [ida_available] is [pwndbg.ida.available()] and
    [decompile_context] is [pwndbg.ida.decompile_context], which returns
    [None] when the decompilation failed; [pc] is [pwndbg.regs.pc].  The
    true division [int(source_code_lines) / 2] followed by [int] rounds
    towards zero. *)
Definition context_code (cfg : Config) (ui : Ui) (sal : Sal)
    (get_source : string -> Exn + list string)
    (ida_available : bool) (decompile_context : Z -> Z -> option string)
    (pc : Z) : Exn + list string :=
  match get_filename_and_formatted_source cfg ui sal get_source with
  | inl e => inl e
  | inr (filename, formatted_source) =>
      match formatted_source with
      | _ :: _ =>
          inr ([banner ui "Source (code)"; ("In file: " ++ filename)%string]
                 ++ formatted_source)
      | [] =>
          if negb ida_available then inr []
          else
            let n := Z.quot (source_code_lines cfg) 2 in
            match decompile_context pc n with
            | Some code =>
                if negb (String.eqb code "")
                then inr ([banner ui "Hexrays pseudocode"] ++ splitlines code)
                else inr []
            | None => inr []
            end
      end
  end.

(** A string that ends in whitespace. *)
Fixpoint ends_in_space (s : string) : bool :=
  match s with
  | EmptyString => false
  | String c EmptyString => is_space c
  | String _ rest => ends_in_space rest
  end.

(** A string that holds a line break. *)
Fixpoint has_linebreak (s : string) : bool :=
  match s with
  | EmptyString => false
  | String c rest => is_linebreak c || has_linebreak rest
  end.

(** A string that holds whitespace. *)
Fixpoint has_space (s : string) : bool :=
  match s with
  | EmptyString => false
  | String c rest => is_space c || has_space rest
  end.

(** * Properties *)

(** ** The output monad *)

Lemma bind_ok {A B : Type} (m : IO A) (f : A -> IO B) t a :
  m = (t, inr a) -> bind m f = (t ++ fst (f a), snd (f a)).
Proof.
  intros ->. unfold bind. destruct (f a); reflexivity.
Qed.

(** A property of every event of [m] and of every continuation holds of
    every event of [bind m f]. *)
Lemma bind_forallb {A B : Type} (P : Event -> bool) (m : IO A) (f : A -> IO B) :
  forallb P (fst m) = true ->
  (forall a, forallb P (fst (f a)) = true) ->
  forallb P (fst (bind m f)) = true.
Proof.
  intros Hm Hf. destruct m as [t [e | a]]; simpl in *.
  - exact Hm.
  - specialize (Hf a). destruct (f a) as [t' r]; simpl in *.
    rewrite forallb_app, Hm, Hf. reflexivity.
Qed.

Lemma for_each_forallb {A : Type} (P : Event -> bool) (l : list A)
    (body : A -> IO unit) :
  (forall x, forallb P (fst (body x)) = true) ->
  forallb P (fst (for_each l body)) = true.
Proof.
  intros Hbody. induction l as [| x rest IH]; simpl.
  - reflexivity.
  - apply bind_forallb; [apply Hbody | intros _; exact IH].
Qed.

Lemma Dest_eqb_refl (d : Dest) : Dest_eqb d d = true.
Proof.
  destruct d; simpl; [reflexivity | apply String.eqb_refl].
Qed.

Lemma Dest_eqb_eq (a b : Dest) : Dest_eqb a b = true <-> a = b.
Proof.
  destruct a, b; simpl; split; intros H; try congruence.
  - apply String.eqb_eq in H. congruence.
  - inversion H. apply String.eqb_refl.
Qed.

Lemma written_app (d : Dest) (t u : list Event) :
  written d (t ++ u) = written d t ++ written d u.
Proof.
  induction t as [| ev t IH]; simpl; [reflexivity |].
  destruct ev; try exact IH.
  destruct (Dest_eqb d d0); simpl; rewrite IH; reflexivity.
Qed.

Lemma written_writes_same (d : Dest) (l : list string) :
  written d (map (EvWrite d) l) = l.
Proof.
  induction l as [| s l IH]; simpl; [reflexivity |].
  rewrite Dest_eqb_refl, IH. reflexivity.
Qed.

Lemma written_writes_other (d d' : Dest) (l : list string) :
  Dest_eqb d d' = false -> written d (map (EvWrite d') l) = [].
Proof.
  intros H. induction l as [| s l IH]; simpl; [reflexivity |].
  rewrite H. exact IH.
Qed.

(** Writes and flushes leave the set of open paths as it is. *)
Lemma left_open_on_stream (d : Dest) (opened : list string) (t : list Event) :
  forallb (on_stream d) t = true -> left_open opened t = opened.
Proof.
  revert opened. induction t as [| ev t IH]; intros opened H; simpl in *.
  - reflexivity.
  - apply andb_true_iff in H as [Hev Ht].
    destruct ev; simpl in Hev; try discriminate; apply IH; exact Ht.
Qed.

Lemma left_open_app (opened : list string) (t u : list Event) :
  left_open opened (t ++ u) = left_open (left_open opened t) u.
Proof.
  revert opened. induction t as [| ev t IH]; intros opened; simpl.
  - reflexivity.
  - destruct ev; apply IH.
Qed.

(** ** The output router *)

Section Router.

Variable cfg : Config.
Variable sys : System.

Local Abbreviation body := (show_context_body cfg sys).

Lemma write_on_stream (out : Dest) (s : string) :
  forallb (on_stream out) (fst (write sys out s)) = true.
Proof.
  unfold write. destruct (write_fails sys out s); simpl.
  - reflexivity.
  - rewrite Dest_eqb_refl. reflexivity.
Qed.

Lemma flush_on_stream (out : Dest) :
  forallb (on_stream out) (fst (flush sys out)) = true.
Proof.
  unfold flush. destruct (flush_fails sys out); simpl.
  - reflexivity.
  - rewrite Dest_eqb_refl. reflexivity.
Qed.

(** Whatever fails, the body only writes to and flushes its stream. *)
Lemma body_on_stream (content : list string) (out : Dest) :
  forallb (on_stream out) (fst (body content out)) = true.
Proof.
  unfold body. apply bind_forallb.
  - destruct (config_clear_screen cfg); [apply write_on_stream | reflexivity].
  - intros _. apply bind_forallb.
    + apply for_each_forallb. intros line. apply write_on_stream.
    + intros _. apply flush_on_stream.
Qed.

Lemma show_context_unfold (tty : string) (content : list string) :
  show_context cfg sys tty content =
  bind (output sys tty) (fun m => with_ m (body content)).
Proof. reflexivity. Qed.

(** A destination that resolves to standard output: no file is opened. *)
Lemma show_context_stdout (tty : string) (content : list string) :
  is_stdout tty = true ->
  show_context cfg sys tty content = body content Stdout.
Proof.
  intros H. rewrite show_context_unfold. unfold output. rewrite H.
  unfold bind, ret, with_; simpl.
  destruct (body content Stdout) as [t r]. rewrite app_nil_r. reflexivity.
Qed.

(** A path that cannot be opened: the delivery raises and writes nothing. *)
Lemma show_context_open_fails (tty : string) (content : list string) :
  is_stdout tty = false -> open_fails sys tty = true ->
  show_context cfg sys tty content = ([], inl IOError).
Proof.
  intros H Ho. rewrite show_context_unfold. unfold output. rewrite H, Ho.
  reflexivity.
Qed.

(** A path that opens: the body runs between the open and the close,
    and its result, an exception too, is the delivery's. *)
Lemma show_context_file (tty : string) (content : list string) :
  is_stdout tty = false -> open_fails sys tty = false ->
  show_context cfg sys tty content =
  (EvOpen tty :: fst (body content (File tty)) ++ [EvClose tty],
   snd (body content (File tty))).
Proof.
  intros H Ho. rewrite show_context_unfold. unfold output. rewrite H, Ho.
  unfold bind, emit, ret, with_; simpl.
  destruct (body content (File tty)) as [t r]. reflexivity.
Qed.

(** Every event of a delivery touches its destination. *)
Lemma show_context_touches (tty : string) (content : list string) :
  forallb (touches tty) (fst (show_context cfg sys tty content)) = true.
Proof.
  assert (Hbody : forall out, out = dest_of tty ->
            forallb (touches tty) (fst (body content out)) = true).
  { intros out ->. pose proof (body_on_stream content (dest_of tty)) as H.
    rewrite forallb_forall in *. intros ev Hin. specialize (H ev Hin).
    destruct ev; simpl in *; try discriminate; exact H. }
  destruct (is_stdout tty) eqn:Hs.
  - rewrite show_context_stdout by exact Hs.
    apply Hbody. unfold dest_of. rewrite Hs. reflexivity.
  - destruct (open_fails sys tty) eqn:Ho.
    + rewrite show_context_open_fails by assumption. reflexivity.
    + rewrite show_context_file by assumption. simpl.
      rewrite Hs, String.eqb_refl. simpl.
      rewrite forallb_app. rewrite Hbody.
      * simpl. rewrite Hs, String.eqb_refl. reflexivity.
      * unfold dest_of. rewrite Hs. reflexivity.
Qed.

Lemma for_each_write_reliable (out : Dest) (content : list string) :
  (forall d s, write_fails sys d s = false) ->
  for_each content (fun line => write sys out (line ++ NL)) =
  (map (fun line => EvWrite out (line ++ NL)) content, inr tt).
Proof.
  intros Hw. induction content as [| line rest IH]; simpl.
  - reflexivity.
  - rewrite IH. unfold write. rewrite Hw. reflexivity.
Qed.

Lemma body_reliable (content : list string) (out : Dest) :
  reliable sys ->
  body content out =
  (map (EvWrite out) (payload cfg content) ++ [EvFlush out], inr tt).
Proof.
  intros (_ & Hw & Hf). unfold body, payload, clear_screen.
  rewrite for_each_write_reliable by exact Hw.
  unfold flush, write. rewrite Hf.
  destruct (config_clear_screen cfg); [rewrite Hw |];
    unfold bind, emit, ret; simpl; rewrite map_map; reflexivity.
Qed.

(** On a system where nothing fails, a delivery is: open (for a path),
    the payload, a flush, close (for a path). *)
Lemma show_context_reliable (tty : string) (content : list string) :
  reliable sys ->
  show_context cfg sys tty content = (delivery cfg tty content, inr tt).
Proof.
  intros Hr. unfold delivery, dest_of. destruct (is_stdout tty) eqn:Hs.
  - rewrite show_context_stdout by exact Hs. rewrite body_reliable by exact Hr.
    simpl. rewrite ?app_nil_r. reflexivity.
  - rewrite show_context_file by (try exact Hs; apply Hr).
    rewrite body_reliable by exact Hr. simpl.
    rewrite <- ?app_assoc. reflexivity.
Qed.

Lemma is_stdout_spec (tty : string) :
  is_stdout tty = true <-> tty = "" \/ tty = "stdout".
Proof.
  unfold is_stdout. rewrite orb_true_iff, !String.eqb_eq. reflexivity.
Qed.

(** No delivery leaves a file open, whatever fails. *)
Lemma show_context_closes (tty : string) (content : list string) :
  left_open [] (fst (show_context cfg sys tty content)) = [].
Proof.
  destruct (is_stdout tty) eqn:Hs.
  - rewrite show_context_stdout by exact Hs.
    apply (left_open_on_stream Stdout), body_on_stream.
  - destruct (open_fails sys tty) eqn:Ho.
    + rewrite show_context_open_fails by assumption. reflexivity.
    + rewrite show_context_file by assumption. simpl.
      rewrite left_open_app.
      rewrite (left_open_on_stream (File tty) _ (fst (body content (File tty))))
        by apply body_on_stream.
      simpl. rewrite String.eqb_refl. reflexivity.
Qed.

(** C6, as the code has it.  For every destination value: the empty
    value and "stdout" (and no other value) resolve to the standard
    output stream, where nothing is opened; any other value is a path
    that [output] opens for writing (truncating it), or fails to open,
    which raises before anything is written; an opened path is closed
    after the body, whether the body returned or raised, so that no
    delivery leaves a file open. *)
Theorem output_resolves_destination (tty : string) (content : list string) :
  (is_stdout tty = true <-> tty = "" \/ tty = "stdout") /\
  (is_stdout tty = true ->
     output sys tty = ret StdOutput /\
     forallb (on_stream Stdout) (fst (show_context cfg sys tty content)) = true) /\
  (is_stdout tty = false -> open_fails sys tty = true ->
     output sys tty = raise IOError /\
     show_context cfg sys tty content = ([], inl IOError)) /\
  (is_stdout tty = false -> open_fails sys tty = false ->
     output sys tty = ([EvOpen tty], inr (FileObject tty)) /\
     exists body_trace,
       fst (show_context cfg sys tty content)
         = EvOpen tty :: body_trace ++ [EvClose tty] /\
       forallb (on_stream (File tty)) body_trace = true) /\
  left_open [] (fst (show_context cfg sys tty content)) = [].
Proof.
  split; [apply is_stdout_spec |].
  split; [| split; [| split]].
  - intros Hs. split.
    + unfold output. rewrite Hs. reflexivity.
    + rewrite show_context_stdout by exact Hs. apply body_on_stream.
  - intros Hs Ho. split.
    + unfold output. rewrite Hs, Ho. reflexivity.
    + apply show_context_open_fails; assumption.
  - intros Hs Ho. split.
    + unfold output. rewrite Hs, Ho. reflexivity.
    + exists (fst (body content (File tty))). split.
      * rewrite show_context_file by assumption. reflexivity.
      * apply body_on_stream.
  - apply show_context_closes.
Qed.

(** C5, as the code has it.  With the clear-screen flag set, the
    clear-screen sequence is the first thing a delivery writes to its
    destination, whichever it is: the standard output or an opened
    path. *)
Theorem clear_screen_on_every_destination (tty : string) (content : list string) :
  config_clear_screen cfg = true ->
  (is_stdout tty = true \/ open_fails sys tty = false) ->
  write_fails sys (dest_of tty) clear_screen_seq = false ->
  exists rest,
    fst (show_context cfg sys tty content)
      = (if is_stdout tty then [] else [EvOpen tty])
          ++ EvWrite (dest_of tty) clear_screen_seq :: rest /\
    written (dest_of tty) (fst (show_context cfg sys tty content))
      = clear_screen_seq :: written (dest_of tty) rest.
Proof.
  intros Hclear Hopen Hwrite.
  assert (Hbody : exists rest,
            fst (body content (dest_of tty))
              = EvWrite (dest_of tty) clear_screen_seq :: rest).
  { unfold body. rewrite Hclear. unfold clear_screen, write. rewrite Hwrite.
    erewrite bind_ok by reflexivity. simpl. eexists. reflexivity. }
  destruct Hbody as [rest Hrest]. unfold dest_of in *.
  destruct (is_stdout tty) eqn:Hs.
  - exists rest. rewrite show_context_stdout by exact Hs. rewrite Hrest.
    simpl. split; reflexivity.
  - destruct Hopen as [Hopen | Hopen]; [discriminate |].
    exists (rest ++ [EvClose tty]).
    rewrite show_context_file by assumption. rewrite Hrest. simpl.
    rewrite String.eqb_refl. split; reflexivity.
Qed.

End Router.

(** C5 at a concrete delivery: the flag is set and the destination is a
    path. *)
Lemma clear_screen_on_every_destination_witness :
  exists rest,
    fst (show_context (config_with true "stdout" "nosplit")
           (system_with None) "/tmp/ctx" ["line"])
      = (if is_stdout "/tmp/ctx" then [] else [EvOpen "/tmp/ctx"])
          ++ EvWrite (dest_of "/tmp/ctx") clear_screen_seq :: rest /\
    written (dest_of "/tmp/ctx")
        (fst (show_context (config_with true "stdout" "nosplit")
                (system_with None) "/tmp/ctx" ["line"]))
      = clear_screen_seq :: written (dest_of "/tmp/ctx") rest.
Proof.
  apply clear_screen_on_every_destination.
  - reflexivity.
  - right. reflexivity.
  - reflexivity.
Defined.

(** C5 as stated fails: with the flag set, a delivery to a path (not the
    primary stream) writes the clear-screen sequence to that path. *)
Lemma clear_screen_reaches_file :
  show_context (config_with true "stdout" "nosplit") (system_with None)
    "/tmp/ctx" ["line"]
  = ([EvOpen "/tmp/ctx";
      EvWrite (File "/tmp/ctx") clear_screen_seq;
      EvWrite (File "/tmp/ctx") ("line" ++ NL);
      EvFlush (File "/tmp/ctx");
      EvClose "/tmp/ctx"], inr tt).
Proof. reflexivity. Qed.

(** C6 at a concrete delivery: every write to the opened path fails, and
    the path is closed all the same. *)
Lemma output_resolves_destination_witness :
  output (broken_pipe None) "/tmp/ctx" = ([EvOpen "/tmp/ctx"], inr (FileObject "/tmp/ctx")) /\
  exists body_trace,
    fst (show_context default_config (broken_pipe None) "/tmp/ctx" ["line"])
      = EvOpen "/tmp/ctx" :: body_trace ++ [EvClose "/tmp/ctx"] /\
    forallb (on_stream (File "/tmp/ctx")) body_trace = true.
Proof.
  destruct (output_resolves_destination default_config (broken_pipe None)
              "/tmp/ctx" ["line"]) as (_ & _ & _ & H & _).
  apply H; reflexivity.
Defined.

(** C6 as stated fails: the value "primary" is no sentinel; [output]
    opens a file of that name and nothing reaches the standard output. *)
Lemma primary_is_a_path :
  is_stdout "primary" = false /\
  output (system_with None) "primary"
    = ([EvOpen "primary"], inr (FileObject "primary")) /\
  show_context default_config (system_with None) "primary" ["line"]
    = ([EvOpen "primary";
        EvWrite (File "primary") ("line" ++ NL);
        EvFlush (File "primary");
        EvClose "primary"], inr tt).
Proof. repeat split. Qed.

(** ** The signal event cache *)

Section SignalCache.

Variable cfg : Config.
Variable ui : Ui.
Variable sys : System.
Variable inf : Inferior.
Variable p : Rendered.

(** C10.  Every call of [save_signal] replaces the stored record by a
    fresh one, filled from the event alone; after a continue event, or a
    stop event that is neither an exit, a signal nor a breakpoint (and
    after an exit event without an exit code), [context_signal] returns
    the empty list, whatever was stored before. *)
Theorem save_signal_resets (g : Globals) :
  context_signal (save_signal ui inf ContinueEvent g) = [] /\
  context_signal (save_signal ui inf StopEvent g) = [] /\
  context_signal (save_signal ui inf (ExitedEvent None) g) = [] /\
  (forall signal,
     save_signal ui inf signal g
       = save_signal ui inf signal {| last_signal := [] |}).
Proof.
  repeat split.
Qed.

(** The batch for the primary destination ends with the stored record. *)
Lemma context_batches_signal (g : Globals) (subcontext : option (list string)) :
  match context_batches cfg ui sys p g subcontext with
  | inr (result, _) => exists front, result = front ++ last_signal g
  | inl _ => True
  end.
Proof.
  unfold context_batches.
  destruct (first_chars _) as [e | args]; [exact I |].
  destruct (split_loop _ _ _ _) as [e | [q args']]; [exact I |].
  destruct (render_args _ _ _) as [e | result]; [exact I |].
  destruct (ttyname1 sys) as [tty |]; [| exact I].
  destruct (dict_mem tty q); eexists; reflexivity.
Qed.

(** C4, as the code has it.  Reading the stored signal record does not
    consume it: [context_signal] returns what is stored, a refresh leaves
    the stored record in place and appends its lines to the batch for
    the primary destination, and so two refreshes with no lifecycle
    event between them produce the same trace twice; the record changes
    only in [save_signal]. *)
Theorem refresh_keeps_signal (g : Globals) (t : list Event)
    (subcontext : option (list string)) :
  context_signal g = last_signal g /\
  fst (step cfg ui sys inf p (g, t) (Refresh subcontext)) = g /\
  match context_batches cfg ui sys p g subcontext with
  | inr (result, _) => exists front, result = front ++ last_signal g
  | inl _ => True
  end /\
  run cfg ui sys inf p [Refresh subcontext; Refresh subcontext] (g, t)
    = (g, (t ++ fst (context cfg ui sys p g subcontext))
            ++ fst (context cfg ui sys p g subcontext)).
Proof.
  split; [reflexivity |].
  split; [reflexivity |].
  split; [apply context_batches_signal | reflexivity].
Qed.

End SignalCache.

(** C4 as stated fails: after one signal event, a first and a second
    refresh both report the signal line, and the record is still stored
    after them. *)
Lemma signal_reported_twice :
  run default_config plain_ui (system_with (Some "/dev/pts/0"))
      quiet_inferior some_lines
      [Notify (SignalEvent "SIGINT"); Refresh (Some ["args"]); Refresh (Some ["args"])]
      (no_signal, [])
  = ({| last_signal := ["Program received signal SIGINT"] |},
     [EvWrite Stdout ("LEGEND" ++ NL);
      EvWrite Stdout ("----" ++ NL);
      EvWrite Stdout ("Program received signal SIGINT" ++ NL);
      EvFlush Stdout;
      EvWrite Stdout ("LEGEND" ++ NL);
      EvWrite Stdout ("----" ++ NL);
      EvWrite Stdout ("Program received signal SIGINT" ++ NL);
      EvFlush Stdout]).
Proof. reflexivity. Qed.

(** ** The source window *)

Lemma enumerate_fst {A : Type} (l : list A) (k : Z) :
  map fst (enumerate l k) = Zseq k (List.length l).
Proof.
  revert k. induction l as [| x l IH]; intros k; simpl.
  - reflexivity.
  - rewrite IH. reflexivity.
Qed.

(** A slice within the bounds of the list has [stop - start] items. *)
Lemma py_slice_length {A : Type} (l : list A) (start stop : Z) :
  (0 <= start <= stop)%Z -> (stop <= Z.of_nat (List.length l))%Z ->
  List.length (py_slice l start stop) = Z.to_nat (stop - start).
Proof.
  intros Hs He. unfold py_slice, slice_bound.
  destruct (Z.ltb_spec start 0); [lia |].
  destruct (Z.ltb_spec stop 0); [lia |].
  rewrite !Z.min_l by lia.
  rewrite length_firstn, length_skipn. lia.
Qed.

Section SourceWindow.

Variable cfg : Config.
Variable ui : Ui.

(** The window around a line of the file: [n // 2] lines before it, the
    line, [n // 2] lines after it, cut at the first and the last line of
    the file. *)
Lemma source_window_span (closest_line : Z) (source : list string) :
  (0 <= source_code_lines cfg)%Z ->
  (1 <= closest_line <= Z.of_nat (List.length source))%Z ->
  let half := (source_code_lines cfg / 2)%Z in
  let first := Z.max (closest_line - half) 1 in
  let last := Z.min (closest_line + half) (Z.of_nat (List.length source)) in
  fst (source_window cfg closest_line source) = last /\
  map fst (snd (source_window cfg closest_line source))
    = Zseq first (Z.to_nat (last - first + 1)).
Proof.
  intros Hn Hline half first last.
  assert (Hhalf : (0 <= half)%Z) by (apply Z.div_pos; lia).
  unfold source_window. cbn [fst snd].
  fold half. split.
  - subst last. f_equal. lia.
  - rewrite enumerate_fst. rewrite py_slice_length by lia.
    subst first last. f_equal; lia.
Qed.

(** C3, as the code has it.  With a window size of 10 and the current
    line 50 in a file of 200 lines, the window is the lines 45 to 55: the
    five lines before the current one, the current one and the five lines
    after it, and the function returns these lines formatted.  Near the
    edges the window is cut at the file's bounds: around line 3 it is the
    lines 1 to 8, around line 198 the lines 193 to 200. *)
Theorem source_window_10_50_200 (source : list string) (filename : string)
    (get_highlight_source : string -> Exn + list string) :
  source_code_lines cfg = 10%Z ->
  List.length source = 200%nat ->
  get_highlight_source filename = inr source ->
  map fst (snd (source_window cfg 50 source))
    = [45; 46; 47; 48; 49; 50; 51; 52; 53; 54; 55]%Z /\
  get_filename_and_formatted_source cfg ui
      {| symtab := Some filename; line := 50 |} get_highlight_source
    = inr (filename,
           map (format_source_line cfg ui 50 2 (String.length (code_prefix cfg)))
               (snd (source_window cfg 50 source))) /\
  map fst (snd (source_window cfg 3 source)) = [1; 2; 3; 4; 5; 6; 7; 8]%Z /\
  map fst (snd (source_window cfg 198 source))
    = [193; 194; 195; 196; 197; 198; 199; 200]%Z.
Proof.
  intros Hn Hlen Hread.
  assert (Hspan : forall closest_line, (1 <= closest_line <= 200)%Z ->
            fst (source_window cfg closest_line source)
              = Z.min (closest_line + 5) 200 /\
            map fst (snd (source_window cfg closest_line source))
              = Zseq (Z.max (closest_line - 5) 1)
                  (Z.to_nat (Z.min (closest_line + 5) 200
                             - Z.max (closest_line - 5) 1 + 1))).
  { intros closest_line Hline.
    pose proof (source_window_span closest_line source) as H.
    rewrite Hn, Hlen in H. apply H; lia. }
  split; [| split; [| split]].
  - apply (Hspan 50%Z). lia.
  - unfold get_filename_and_formatted_source. cbn [symtab line].
    rewrite Hread. destruct source as [| l0 rest]; [discriminate |].
    destruct (Hspan 50%Z ltac:(lia)) as [Hend _].
    destruct (source_window cfg 50 (l0 :: rest)) as [end_ numbered].
    cbn [fst snd] in *. subst end_. reflexivity.
  - apply (Hspan 3%Z). lia.
  - apply (Hspan 198%Z). lia.
Qed.

End SourceWindow.

(** C3 at a concrete file of 200 lines. *)
Lemma source_window_10_50_200_witness :
  map fst (snd (source_window default_config 50 (repeat "code" 200)))
    = [45; 46; 47; 48; 49; 50; 51; 52; 53; 54; 55]%Z /\
  get_filename_and_formatted_source default_config plain_ui
      {| symtab := Some "main.c"; line := 50 |} (fun _ => inr (repeat "code" 200))
    = inr ("main.c",
           map (format_source_line default_config plain_ui 50 2
                  (String.length (code_prefix default_config)))
               (snd (source_window default_config 50 (repeat "code" 200)))) /\
  map fst (snd (source_window default_config 3 (repeat "code" 200)))
    = [1; 2; 3; 4; 5; 6; 7; 8]%Z /\
  map fst (snd (source_window default_config 198 (repeat "code" 200)))
    = [193; 194; 195; 196; 197; 198; 199; 200]%Z.
Proof.
  apply (source_window_10_50_200 default_config plain_ui
           (repeat "code" 200) "main.c" (fun _ => inr (repeat "code" 200)));
    reflexivity.
Defined.

(** C3 as stated fails: the window around line 50 starts at line 45 and
    ends at line 55; line 56 is not in it. *)
Lemma source_window_is_45_to_55 :
  map fst (snd (source_window default_config 50 (repeat "code" 200)))
    = [45; 46; 47; 48; 49; 50; 51; 52; 53; 54; 55]%Z /\
  map fst (snd (source_window default_config 50 (repeat "code" 200)))
    <> [46; 47; 48; 49; 50; 51; 52; 53; 54; 55; 56]%Z.
Proof.
  split; [reflexivity | discriminate].
Qed.

(** ** The context orchestrator *)

Lemma touches_other_path (tty path : string) (ev : Event) :
  tty <> path -> touches tty ev = true -> uses_path path ev = false.
Proof.
  intros Hne H.
  assert (Hp : String.eqb path tty = false)
    by (apply String.eqb_neq; congruence).
  destruct ev as [q | d s | d | q]; simpl in *.
  - apply andb_true_iff in H as [_ H]. apply String.eqb_eq in H. subst q. exact Hp.
  - apply Dest_eqb_eq in H. subst d. unfold dest_of.
    destruct (is_stdout tty); [reflexivity | exact Hp].
  - apply Dest_eqb_eq in H. subst d. unfold dest_of.
    destruct (is_stdout tty); [reflexivity | exact Hp].
  - apply andb_true_iff in H as [_ H]. apply String.eqb_eq in H. subst q. exact Hp.
Qed.

Lemma for_each_forallb_in {A : Type} (P : Event -> bool) (l : list A)
    (body : A -> IO unit) :
  (forall x, In x l -> forallb P (fst (body x)) = true) ->
  forallb P (fst (for_each l body)) = true.
Proof.
  induction l as [| x rest IH]; intros Hbody; simpl.
  - reflexivity.
  - apply bind_forallb.
    + apply Hbody. left. reflexivity.
    + intros _. apply IH. intros y Hy. apply Hbody. right. exact Hy.
Qed.

Lemma written_delivery_same (cfg : Config) (tty : string) (content : list string) :
  written (dest_of tty) (delivery cfg tty content) = payload cfg content.
Proof.
  unfold delivery. rewrite !written_app, written_writes_same.
  destruct (is_stdout tty); simpl; rewrite ?app_nil_r; reflexivity.
Qed.

Lemma written_delivery_other (cfg : Config) (d : Dest) (tty : string)
    (content : list string) :
  Dest_eqb d (dest_of tty) = false ->
  written d (delivery cfg tty content) = [].
Proof.
  intros H. unfold delivery. rewrite !written_app, written_writes_other by exact H.
  destruct (is_stdout tty); reflexivity.
Qed.

Lemma written_deliveries_other (cfg : Config) (d : Dest) (q : Queue) :
  Forall (fun kv => dest_of (fst kv) <> d) q ->
  written d (deliveries cfg q) = [].
Proof.
  induction 1 as [| [tty content] q Hne Hrest IH]; simpl.
  - reflexivity.
  - rewrite written_app, IH, written_delivery_other; [reflexivity |].
    destruct (Dest_eqb d (dest_of tty)) eqn:E; [| reflexivity].
    apply Dest_eqb_eq in E. simpl in Hne. congruence.
Qed.

Lemma dict_del_mem (key : string) (q : Queue) :
  dict_mem key (dict_del key q) = false.
Proof.
  induction q as [| [k v] q IH]; simpl; [reflexivity |].
  destruct (String.eqb key k) eqn:Hk; simpl.
  - exact IH.
  - rewrite Hk. exact IH.
Qed.

Lemma dict_del_keys (key : string) (q : Queue) :
  Forall (fun kv => fst kv <> key) (dict_del key q).
Proof.
  unfold dict_del. apply Forall_forall. intros kv Hin.
  apply filter_In in Hin as [_ H]. apply negb_true_iff, String.eqb_neq in H.
  congruence.
Qed.

Section Orchestrator.

Variable cfg : Config.
Variable ui : Ui.
Variable sys : System.
Variable p : Rendered.
Variable g : Globals.

(** The delivery loop of [context], once the batches are known. *)
Lemma context_delivers (subcontext : option (list string))
    (result : list string) (q : Queue) :
  context_batches cfg ui sys p g subcontext = inr (result, q) ->
  context cfg ui sys p g subcontext
  = (show_context cfg sys (config_output cfg) result ;;
     for_each q (fun '(tty, content) => show_context cfg sys tty content))%io.
Proof.
  intros H. unfold context. rewrite H. reflexivity.
Qed.

(** Where nothing fails, the delivery loop over a queue is one delivery
    after the other. *)
Lemma for_each_reliable (q : Queue) :
  reliable sys ->
  for_each q (fun '(tty, content) => show_context cfg sys tty content)
    = (deliveries cfg q, inr tt).
Proof.
  intros Hrel. induction q as [| [tty content] q IH]; simpl.
  - reflexivity.
  - rewrite IH, show_context_reliable by exact Hrel. reflexivity.
Qed.

(** Where nothing fails, a refresh is the delivery of the primary batch
    and then of every other batch. *)
Lemma context_reliable (subcontext : option (list string))
    (result : list string) (q : Queue) :
  reliable sys ->
  context_batches cfg ui sys p g subcontext = inr (result, q) ->
  context cfg ui sys p g subcontext
    = (delivery cfg (config_output cfg) result ++ deliveries cfg q, inr tt).
Proof.
  intros Hrel H. rewrite (context_delivers _ _ _ H).
  rewrite show_context_reliable, for_each_reliable by exact Hrel.
  reflexivity.
Qed.

(** C1, as the code has it.  A refresh over r, d, s, where r and s have
    the destination 'nosplit' and d has the path P, on a terminal whose
    name is not P, the three producers returning their outputs: the batch
    for the primary destination is the legend line, the r output, the s
    output, one blank banner line and the stored signal lines, in that
    order, and the only other batch is the d output, for P.  Where
    nothing fails and P is neither the primary destination nor a name of
    the standard output, the refresh writes exactly these two batches:
    the first to the primary destination, the d output to P (each after
    the clear-screen sequence when that flag is set). *)
Theorem refresh_r_d_s (P tty : string) (r d s : list string) :
  config_output_regs cfg = "nosplit" ->
  config_output_stack cfg = "nosplit" ->
  config_output_disasm cfg = P ->
  P <> "nosplit" ->
  ttyname1 sys = Some tty ->
  tty <> P ->
  regs_lines p = inr r ->
  disasm_lines p = inr d ->
  stack_lines p = inr s ->
  let result := M_legend ui :: r ++ s ++ [banner ui ""] ++ last_signal g in
  context_batches cfg ui sys p g (Some ["r"; "d"; "s"])
    = inr (result, [(P, d)]) /\
  (reliable sys ->
   is_stdout P = false ->
   dest_of (config_output cfg) <> File P ->
   let trace := fst (context cfg ui sys p g (Some ["r"; "d"; "s"])) in
   context cfg ui sys p g (Some ["r"; "d"; "s"])
     = (delivery cfg (config_output cfg) result ++ delivery cfg P d, inr tt) /\
   written (dest_of (config_output cfg)) trace = payload cfg result /\
   written (File P) trace = payload cfg d).
Proof.
  intros Hr Hs Hd HP Htty Hne Hregs Hdisasm Hstack result.
  assert (Hbatches :
            context_batches cfg ui sys p g (Some ["r"; "d"; "s"])
              = inr (result, [(P, d)])).
  { apply String.eqb_neq in HP. apply String.eqb_neq in Hne.
    unfold context_batches, requested_args.
    do 8 (cbn; rewrite ?Hr, ?Hs, ?Hd, ?HP, ?Htty, ?Hne, ?Hregs, ?Hdisasm,
                 ?Hstack, ?String.eqb_refl).
    unfold result, context_signal. rewrite <- !app_assoc. reflexivity. }
  split; [exact Hbatches |].
  intros Hrel HPout Hprimary trace.
  assert (Hctx : context cfg ui sys p g (Some ["r"; "d"; "s"])
                 = (delivery cfg (config_output cfg) result
                      ++ delivery cfg P d, inr tt)).
  { rewrite (context_reliable _ _ _ Hrel Hbatches).
    unfold deliveries. simpl. rewrite app_nil_r. reflexivity. }
  split; [exact Hctx |].
  unfold trace. rewrite Hctx. cbn [fst]. rewrite !written_app.
  assert (HdP : dest_of P = File P) by (unfold dest_of; rewrite HPout; reflexivity).
  split.
  - rewrite written_delivery_same, written_delivery_other, app_nil_r; [reflexivity |].
    rewrite HdP. destruct (Dest_eqb _ _) eqn:E; [| reflexivity].
    apply Dest_eqb_eq in E. contradiction.
  - rewrite <- HdP at 2. rewrite written_delivery_same.
    rewrite written_delivery_other; [reflexivity |].
    destruct (Dest_eqb _ _) eqn:E; [| reflexivity].
    apply Dest_eqb_eq in E. congruence.
Qed.

(** C2.  When the partitioning loop has filled a batch under the name of
    the terminal on standard output, that batch's lines are appended to
    the default-stream batch (before the blank banner and the signal
    lines) and its entry is deleted from the queue; the refresh then
    delivers the merged batch to the primary destination and the
    remaining batches to their own, none of which is that terminal.  So
    when the primary destination is not that terminal's path either, no
    event of the refresh opens it or writes to it, whatever fails; and
    where nothing fails the trace of the refresh is the delivery of the
    merged batch followed by the deliveries of the remaining batches, so
    that the primary destination's stream receives the merged batch,
    which holds the terminal's batch once, and nothing else unless
    another batch resolves to the same stream. *)
Theorem terminal_batch_merged (subcontext : option (list string))
    (ks rest : list string) (q : Queue) (tty : string)
    (default_batch : list string) :
  first_chars (requested_args cfg subcontext) = inr ks ->
  split_loop cfg p ks ([], ks) = inr (q, rest) ->
  render_args p rest (match rest with [] => [] | _ => [M_legend ui] end)
    = inr default_batch ->
  ttyname1 sys = Some tty ->
  dict_mem tty q = true ->
  let merged := default_batch ++ dict_get tty q in
  let result :=
    (if Nat.ltb 0 (List.length merged) then merged ++ [banner ui ""] else merged)
      ++ last_signal g in
  let trace := fst (context cfg ui sys p g subcontext) in
  context_batches cfg ui sys p g subcontext = inr (result, dict_del tty q) /\
  dict_mem tty (dict_del tty q) = false /\
  context cfg ui sys p g subcontext
    = (show_context cfg sys (config_output cfg) result ;;
       for_each (dict_del tty q)
         (fun '(tty', content) => show_context cfg sys tty' content))%io /\
  (config_output cfg <> tty ->
   forallb (fun ev => negb (uses_path tty ev)) trace = true) /\
  (reliable sys ->
   context cfg ui sys p g subcontext
     = (delivery cfg (config_output cfg) result
          ++ deliveries cfg (dict_del tty q), inr tt) /\
   (Forall (fun kv => dest_of (fst kv) <> dest_of (config_output cfg))
      (dict_del tty q) ->
    written (dest_of (config_output cfg)) trace = payload cfg result)).
Proof.
  intros Hks Hsplit Hrender Htty Hmem merged result trace.
  assert (Hbatches :
            context_batches cfg ui sys p g subcontext = inr (result, dict_del tty q)).
  { unfold context_batches. rewrite Hks, Hsplit, Hrender, Htty, Hmem. reflexivity. }
  split; [exact Hbatches |].
  split; [apply dict_del_mem |].
  split; [apply context_delivers; exact Hbatches |].
  split.
  - intros Hprimary. unfold trace. rewrite (context_delivers _ _ _ Hbatches).
    assert (Hshow : forall tty' content, tty' <> tty ->
              forallb (fun ev => negb (uses_path tty ev))
                (fst (show_context cfg sys tty' content)) = true).
    { intros tty' content Hne. apply forallb_forall. intros ev Hin.
      pose proof (show_context_touches cfg sys tty' content) as Ht.
      rewrite forallb_forall in Ht.
      rewrite (touches_other_path tty' tty ev Hne (Ht ev Hin)). reflexivity. }
    apply bind_forallb.
    + apply Hshow. exact Hprimary.
    + intros _. apply for_each_forallb_in. intros [tty' content] Hin.
      apply Hshow.
      pose proof (dict_del_keys tty q) as Hkeys. rewrite Forall_forall in Hkeys.
      apply (Hkeys _ Hin).
  - intros Hrel.
    pose proof (context_reliable _ _ _ Hrel Hbatches) as Hctx.
    split; [exact Hctx |].
    intros Hothers. unfold trace. rewrite Hctx. cbn [fst].
    rewrite written_app, written_delivery_same.
    rewrite written_deliveries_other by exact Hothers.
    apply app_nil_r.
Qed.

End Orchestrator.

(** C1 at concrete sections: d goes to the file /tmp/disasm. *)
Lemma refresh_r_d_s_witness :
  context_batches (config_with false "stdout" "/tmp/disasm") plain_ui
      (system_with (Some "/dev/pts/0")) some_lines no_signal (Some ["r"; "d"; "s"])
    = inr (M_legend plain_ui :: ["REGS"; "rax 0"] ++ ["STACK"; "00 rsp"]
             ++ [banner plain_ui ""] ++ last_signal no_signal,
           [("/tmp/disasm", ["DISASM"; "nop"])]) /\
  written Stdout
    (fst (context (config_with false "stdout" "/tmp/disasm") plain_ui
            (system_with (Some "/dev/pts/0")) some_lines no_signal
            (Some ["r"; "d"; "s"])))
    = payload (config_with false "stdout" "/tmp/disasm")
        (M_legend plain_ui :: ["REGS"; "rax 0"] ++ ["STACK"; "00 rsp"]
           ++ [banner plain_ui ""] ++ last_signal no_signal) /\
  written (File "/tmp/disasm")
    (fst (context (config_with false "stdout" "/tmp/disasm") plain_ui
            (system_with (Some "/dev/pts/0")) some_lines no_signal
            (Some ["r"; "d"; "s"])))
    = payload (config_with false "stdout" "/tmp/disasm") ["DISASM"; "nop"].
Proof.
  destruct (refresh_r_d_s (config_with false "stdout" "/tmp/disasm") plain_ui
              (system_with (Some "/dev/pts/0")) some_lines no_signal
              "/tmp/disasm" "/dev/pts/0"
              ["REGS"; "rax 0"] ["DISASM"; "nop"] ["STACK"; "00 rsp"])
    as [Hbatches Hwrites];
    try reflexivity; try discriminate.
  split; [exact Hbatches |].
  destruct Hwrites as (_ & Hprimary & Hfile).
  - repeat split.
  - reflexivity.
  - discriminate.
  - split; [exact Hprimary | exact Hfile].
Defined.

(** C1 as stated fails: after the legend, the r output and the s output,
    the primary destination also receives the blank banner line. *)
Lemma primary_batch_ends_with_banner :
  written Stdout
    (fst (context (config_with false "stdout" "/tmp/disasm") plain_ui
            (system_with (Some "/dev/pts/0")) some_lines no_signal
            (Some ["r"; "d"; "s"])))
  = map (fun line => (line ++ NL)%string)
      (["LEGEND"] ++ ["REGS"; "rax 0"] ++ ["STACK"; "00 rsp"] ++ ["----"]) /\
  written (File "/tmp/disasm")
    (fst (context (config_with false "stdout" "/tmp/disasm") plain_ui
            (system_with (Some "/dev/pts/0")) some_lines no_signal
            (Some ["r"; "d"; "s"])))
  = map (fun line => (line ++ NL)%string) ["DISASM"; "nop"].
Proof. split; reflexivity. Qed.

(** C2 at concrete sections: d is sent to the terminal the debugger runs
    on, and nothing fails.  The standard output receives the d output
    once, after the r and the s output, and the terminal's path is
    neither opened nor written. *)
Lemma terminal_batch_merged_witness :
  context_batches (config_with false "stdout" "/dev/pts/0") plain_ui
      (system_with (Some "/dev/pts/0")) some_lines no_signal (Some ["r"; "d"; "s"])
    = inr (["LEGEND"; "REGS"; "rax 0"; "STACK"; "00 rsp"; "DISASM"; "nop"; "----"],
           []) /\
  forallb (fun ev => negb (uses_path "/dev/pts/0" ev))
    (fst (context (config_with false "stdout" "/dev/pts/0") plain_ui
            (system_with (Some "/dev/pts/0")) some_lines no_signal
            (Some ["r"; "d"; "s"]))) = true /\
  written Stdout
    (fst (context (config_with false "stdout" "/dev/pts/0") plain_ui
            (system_with (Some "/dev/pts/0")) some_lines no_signal
            (Some ["r"; "d"; "s"])))
    = map (fun line => (line ++ NL)%string)
        ["LEGEND"; "REGS"; "rax 0"; "STACK"; "00 rsp"; "DISASM"; "nop"; "----"].
Proof.
  destruct (terminal_batch_merged (config_with false "stdout" "/dev/pts/0")
              plain_ui (system_with (Some "/dev/pts/0")) some_lines no_signal
              (Some ["r"; "d"; "s"]) ["r"; "d"; "s"] ["r"; "s"]
              [("/dev/pts/0", ["DISASM"; "nop"])] "/dev/pts/0"
              ["LEGEND"; "REGS"; "rax 0"; "STACK"; "00 rsp"]
              eq_refl eq_refl eq_refl eq_refl eq_refl)
    as (Hb & _ & _ & Hno & Hrel).
  split; [exact Hb |].
  split; [apply Hno; discriminate |].
  destruct Hrel as [_ Hwritten].
  - repeat split.
  - apply Hwritten. constructor.
Defined.

(** ** Standard output that is no terminal *)

(** The two dicts have the same keys. *)
Lemma context_sections_known (cfg : Config) (p : Rendered) (key : string) :
  known_key cfg key -> exists func, context_sections p key = Some func.
Proof.
  unfold known_key, splited_config_outputs, context_sections.
  repeat (destruct (String.eqb key _); [intros _; eexists; reflexivity |]).
  intros H. contradiction.
Qed.

Lemma list_remove_count (x y : string) (l l' : list string) :
  list_remove x l = Some l' ->
  count_occ string_dec l y
    = (count_occ string_dec l' y + (if string_dec x y then 1 else 0))%nat.
Proof.
  revert l'. induction l as [| z l IH]; intros l' H; simpl in H.
  - discriminate.
  - destruct (String.eqb x z) eqn:Hxz.
    + apply String.eqb_eq in Hxz. subst z. inversion H; subst l'.
      simpl. destruct (string_dec x y); lia.
    + destruct (list_remove x l) as [l'' |]; [| discriminate].
      inversion H; subst l'. simpl.
      rewrite (IH l'' eq_refl). destruct (string_dec z y); lia.
Qed.

Lemma list_remove_in (x : string) (l : list string) :
  In x l -> exists l', list_remove x l = Some l'.
Proof.
  induction l as [| z l IH]; intros Hin; simpl.
  - contradiction.
  - destruct (String.eqb x z) eqn:Hxz; [eexists; reflexivity |].
    destruct Hin as [-> | Hin]; [rewrite String.eqb_refl in Hxz; discriminate |].
    destruct (IH Hin) as [l' ->]. eexists. reflexivity.
Qed.

Lemma list_remove_incl (x : string) (l l' : list string) :
  list_remove x l = Some l' -> incl l' l.
Proof.
  revert l'. induction l as [| z l IH]; intros l' H; simpl in H.
  - discriminate.
  - destruct (String.eqb x z).
    + inversion H; subst l'. apply incl_tl, incl_refl.
    + destruct (list_remove x l) as [l'' |]; [| discriminate].
      inversion H; subst l'. apply incl_cons.
      * left. reflexivity.
      * apply incl_tl. apply IH. reflexivity.
Qed.

Lemma list_remove_keeps (x y : string) (l l' : list string) :
  list_remove x l = Some l' -> In y l -> y <> x -> In y l'.
Proof.
  revert l'. induction l as [| z l IH]; intros l' H Hin Hne; simpl in H.
  - contradiction.
  - destruct (String.eqb x z) eqn:Hxz.
    + apply String.eqb_eq in Hxz. subst z. inversion H; subst l'.
      destruct Hin as [-> | Hin]; [contradiction | exact Hin].
    + destruct (list_remove x l) as [l'' |]; [| discriminate].
      inversion H; subst l'.
      destruct Hin as [-> | Hin]; [left; reflexivity |].
      right. apply IH; auto.
Qed.

(** Over known keys the partitioning loop raises only what a producer
    raises: each section that moves is still in [args] when its turn
    comes, so that [args.remove] finds it.  When the loop returns, every
    section that moved has returned its lines, and [args] has lost
    nothing but sections that moved. *)
Lemma split_loop_known (cfg : Config) (p : Rendered) (tmp_args : list string) :
  Forall (known_key cfg) tmp_args ->
  forall (q : Queue) (args : list string),
    (forall key, moves cfg key = true ->
       (count_occ string_dec tmp_args key <= count_occ string_dec args key)%nat) ->
    match split_loop cfg p tmp_args (q, args) with
    | inr (_, args') =>
        incl args' args /\
        (forall key, In key args -> moves cfg key = false -> In key args') /\
        Forall (fun key => moves cfg key = true -> returns p key) tmp_args
    | inl e =>
        exists key, In key tmp_args /\ moves cfg key = true /\ raises p key e
    end.
Proof.
  induction 1 as [| key rest Hkey Hrest IH]; intros q args Hinv.
  - simpl. split; [apply incl_refl |]. split; [auto | constructor].
  - cbn [split_loop]. unfold split_step.
    destruct (context_sections_known cfg p key Hkey) as [func Hfunc].
    pose proof (Hinv key) as Hhere.
    assert (Hmoves : moves cfg key
                     = match splited_config_outputs cfg key with
                       | Some dest => negb (String.eqb dest "nosplit")
                       | None => false
                       end) by reflexivity.
    unfold known_key in Hkey.
    destruct (splited_config_outputs cfg key) as [dest |] eqn:Hdest;
      [| contradiction].
    destruct (negb (String.eqb dest "nosplit")) eqn:Hmove.
    + rewrite Hfunc. destruct func as [e | lines].
      * exists key. split; [left; reflexivity |]. split; assumption.
      * specialize (Hhere Hmoves). simpl in Hhere.
        destruct (string_dec key key) as [_ | Hn]; [| contradiction].
        assert (Hin : In key args)
          by (apply (count_occ_In string_dec); lia).
        destruct (list_remove_in key args Hin) as [args' Hrm]. rewrite Hrm.
        match goal with
        | |- context [split_loop cfg p rest (?q', args')] =>
            specialize (IH q' args')
        end.
        assert (Hinv' : forall k, moves cfg k = true ->
                  (count_occ string_dec rest k <= count_occ string_dec args' k)%nat).
        { intros k Hk. specialize (Hinv k Hk). simpl in Hinv.
          rewrite (list_remove_count key k args args' Hrm) in Hinv.
          destruct (string_dec key k); lia. }
        specialize (IH Hinv').
        destruct (split_loop cfg p rest _) as [e | [q'' args'']].
        -- destruct IH as (k & Hk & Hm & Hraise).
           exists k. split; [right; exact Hk |]. split; assumption.
        -- destruct IH as (Hincl & Hkeep & Hret). split; [| split].
           ++ intros x Hx. apply (list_remove_incl key args args' Hrm), Hincl, Hx.
           ++ intros k Hk Hstay. apply Hkeep; [| exact Hstay].
              apply (list_remove_keeps key k args args' Hrm Hk).
              intros ->. congruence.
           ++ constructor; [| exact Hret].
              intros _. unfold returns. rewrite Hfunc. exact I.
    + assert (Hinv' : forall k, moves cfg k = true ->
                (count_occ string_dec rest k <= count_occ string_dec args k)%nat).
      { intros k Hk. specialize (Hinv k Hk). simpl in Hinv.
        destruct (string_dec key k); lia. }
      specialize (IH q args Hinv').
      destruct (split_loop cfg p rest (q, args)) as [e | [q'' args'']].
      * destruct IH as (k & Hk & Hm & Hraise).
        exists k. split; [right; exact Hk |]. split; assumption.
      * destruct IH as (Hincl & Hkeep & Hret).
        split; [exact Hincl |]. split; [exact Hkeep |].
        constructor; [| exact Hret].
        intros Hm. rewrite Hmoves in Hm. discriminate.
Qed.

(** Over known keys whose producers return, the partitioning loop
    returns. *)
Lemma split_loop_total (cfg : Config) (p : Rendered) (tmp_args : list string) :
  Forall (known_key cfg) tmp_args ->
  Forall (returns p) tmp_args ->
  forall (q : Queue) (args : list string),
    (forall key, moves cfg key = true ->
       (count_occ string_dec tmp_args key <= count_occ string_dec args key)%nat) ->
    exists q' args', split_loop cfg p tmp_args (q, args) = inr (q', args').
Proof.
  intros Hknown Hret q args Hinv.
  pose proof (split_loop_known cfg p tmp_args Hknown q args Hinv) as H.
  destruct (split_loop cfg p tmp_args (q, args)) as [e | [q' args']].
  - destruct H as (key & Hin & _ & Hraise). exfalso.
    rewrite Forall_forall in Hret. specialize (Hret key Hin).
    unfold returns, raises in *. rewrite Hraise in Hret. exact Hret.
  - eauto.
Qed.

(** The loop over the sections that stay raises only what a producer
    raises, and returns when every one of them returns. *)
Lemma render_args_cases (p : Rendered) (args : list string) :
  forall result,
    match render_args p args result with
    | inr _ => Forall (returns p) args
    | inl e => exists key, In key args /\ raises p key e
    end.
Proof.
  induction args as [| arg rest IH]; intros result; simpl.
  - constructor.
  - destruct (context_sections p arg) as [[e | lines] |] eqn:Hfunc.
    + exists arg. split; [left; reflexivity | exact Hfunc].
    + specialize (IH (result ++ lines)).
      destruct (render_args p rest (result ++ lines)) as [e | r].
      * destruct IH as (k & Hk & Hraise). exists k. split; [right |]; assumption.
      * constructor; [| exact IH]. unfold returns. rewrite Hfunc. exact I.
    + specialize (IH result).
      destruct (render_args p rest result) as [e | r].
      * destruct IH as (k & Hk & Hraise). exists k. split; [right |]; assumption.
      * constructor; [| exact IH]. unfold returns. rewrite Hfunc. exact I.
Qed.

(** A producer that returns does not raise. *)
Lemma returns_not_raises (p : Rendered) (ks : list string) (key : string) (e : Exn) :
  Forall (returns p) ks -> In key ks -> raises p key e -> False.
Proof.
  intros Hret Hin Hraise. rewrite Forall_forall in Hret.
  specialize (Hret key Hin). unfold returns, raises in *.
  rewrite Hraise in Hret. exact Hret.
Qed.

(** Over known keys, a refresh gets as far as the terminal query unless a
    requested producer raises. *)
Lemma context_batches_known (cfg : Config) (ui : Ui) (sys : System)
    (p : Rendered) (g : Globals) (subcontext : option (list string))
    (ks : list string) :
  first_chars (requested_args cfg subcontext) = inr ks ->
  Forall (known_key cfg) ks ->
  match context_batches cfg ui sys p g subcontext with
  | inr _ => ttyname1 sys <> None /\ Forall (returns p) ks
  | inl e =>
      (e = OSError /\ ttyname1 sys = None /\ Forall (returns p) ks) \/
      (exists key, In key ks /\ raises p key e)
  end.
Proof.
  intros Hks Hknown. unfold context_batches. rewrite Hks.
  pose proof (split_loop_known cfg p ks Hknown [] ks (fun _ _ => le_n _)) as Hsplit.
  destruct (split_loop cfg p ks ([], ks)) as [e | [q args']].
  - destruct Hsplit as (key & Hin & _ & Hraise). right. eauto.
  - destruct Hsplit as (Hincl & Hkeep & Hmoved).
    pose proof (render_args_cases p args'
                  (match args' with [] => [] | _ => [M_legend ui] end)) as Hrender.
    destruct (render_args p args' _) as [e | result].
    + destruct Hrender as (key & Hin & Hraise). right.
      exists key. split; [apply Hincl; exact Hin | exact Hraise].
    + assert (Hall : Forall (returns p) ks).
      { rewrite Forall_forall in *. intros key Hin.
        destruct (moves cfg key) eqn:Hm.
        - apply (Hmoved key Hin Hm).
        - apply Hrender, Hkeep; assumption. }
      destruct (ttyname1 sys) as [tty |].
      * destruct (dict_mem tty q); split; try exact Hall; discriminate.
      * left. repeat split. exact Hall.
Qed.

Section NoTerminal.

Variable cfg : Config.
Variable ui : Ui.
Variable sys : System.
Variable p : Rendered.
Variable g : Globals.

(** C9, as the code has it.  [os.ttyname(1)] is called on every refresh
    that gets as far: after the partitioning loop and the calls of the
    producers, whether a batch was split off or not.  When standard
    output is no terminal, the refresh writes nothing and raises.  Where
    every requested token starts with a section key, it raises the
    [OSError] of [os.ttyname] when every requested producer returns, also
    when every section has the destination 'nosplit', and otherwise an
    exception that a requested producer raised. *)
Theorem refresh_without_terminal (subcontext : option (list string)) :
  ttyname1 sys = None ->
  fst (context cfg ui sys p g subcontext) = [] /\
  (exists e, snd (context cfg ui sys p g subcontext) = inl e) /\
  (forall ks,
     first_chars (requested_args cfg subcontext) = inr ks ->
     Forall (known_key cfg) ks ->
     (Forall (returns p) ks ->
      context cfg ui sys p g subcontext = ([], inl OSError)) /\
     (~ Forall (returns p) ks ->
      exists key e,
        In key ks /\ raises p key e /\
        context cfg ui sys p g subcontext = ([], inl e))).
Proof.
  intros Htty.
  assert (Hraise : forall e,
            context_batches cfg ui sys p g subcontext = inl e ->
            context cfg ui sys p g subcontext = ([], inl e)).
  { intros e H. unfold context. rewrite H. reflexivity. }
  assert (Hsome : exists e, context_batches cfg ui sys p g subcontext = inl e).
  { unfold context_batches.
    destruct (first_chars _) as [e | args]; [eauto |].
    destruct (split_loop _ _ _ _) as [e | [q args']]; [eauto |].
    destruct (render_args _ _ _) as [e | result]; [eauto |].
    rewrite Htty. eauto. }
  destruct Hsome as [e He]. rewrite (Hraise e He). cbn [fst snd].
  split; [reflexivity |]. split; [eauto |].
  intros ks Hks Hknown.
  pose proof (context_batches_known cfg ui sys p g subcontext ks Hks Hknown) as H.
  rewrite He in H. destruct H as [(-> & _ & Hall) | (key & Hin & Hr)].
  - split; [reflexivity | intros Hnot; contradiction].
  - split.
    + intros Hall. destruct (returns_not_raises p ks key e Hall Hin Hr).
    + intros _. exists key, e. auto.
Qed.

End NoTerminal.

(** C9 at a concrete refresh: no token is given, every section has the
    destination 'nosplit', every producer returns, and standard output is
    no terminal. *)
Lemma refresh_without_terminal_witness :
  fst (context default_config plain_ui (system_with None) some_lines no_signal None)
    = [] /\
  context default_config plain_ui (system_with None) some_lines no_signal None
    = ([], inl OSError).
Proof.
  destruct (refresh_without_terminal default_config plain_ui (system_with None)
              some_lines no_signal None eq_refl) as (Hquiet & _ & Hos).
  split; [exact Hquiet |].
  apply (Hos ["r"; "d"; "c"; "s"; "b"]).
  - reflexivity.
  - repeat constructor; discriminate.
  - repeat constructor.
Defined.

(** C9 as stated fails: the producers are called before [os.ttyname].
    On a stack whose frame 0 has an unreadable caller, [context_backtrace]
    raises a [gdb.MemoryError]; a refresh whose backtrace section does so
    raises that error and not an [OSError], although standard output is no
    terminal. *)
Lemma producer_raises_first :
  context_backtrace default_config plain_ui unreadable_inner 2 10 true
    = Some (inl MemoryError) /\
  context default_config plain_ui (system_with None) unreadable_backtrace
      no_signal None
    = ([], inl MemoryError).
Proof. split; reflexivity. Qed.

(** ** The backtrace walker *)

Section Backtrace.

Context {Frame : Type}.
Variable cfg : Config.
Variable ui : Ui.
Variable fr : Frames Frame.

(** The lines of the [while] loop are the lines of the frames it visits,
    numbered from [i]. *)
Lemma bt_loop_frames (this_frame oldest_frame : Frame) (fuel : nat) :
  forall (frame : Frame) (i : Z),
    bt_loop cfg ui fr this_frame oldest_frame fuel frame i =
    match bt_frames fr oldest_frame fuel frame with
    | None => None
    | Some (inl e) => Some (inl e)
    | Some (inr frames) =>
        Some (inr (map (fun '(k, f) => bt_line cfg ui fr this_frame f k)
                       (enumerate frames i)))
    end.
Proof.
  induction fuel as [| fuel IH]; intros frame i; simpl.
  - reflexivity.
  - destruct (frame_eqb fr frame oldest_frame); [reflexivity |].
    destruct (older fr frame) as [e | [frame' |]]; try reflexivity.
    rewrite IH.
    destruct (bt_frames fr oldest_frame fuel frame') as [[e | frames] |];
      reflexivity.
Qed.

Lemma older_path_snoc (n : nat) (a b c : Frame) :
  older_path fr n a b -> older fr b = inr (Some c) ->
  older_path fr (S n) a c.
Proof.
  induction 1 as [a | n a a' b Hstep Hpath IH]; intros Hlast.
  - eapply older_path_step; [exact Hlast | constructor].
  - eapply older_path_step; [exact Hstep | apply IH; exact Hlast].
Qed.

Lemma older_path_app (n m : nat) (a b c : Frame) :
  older_path fr n a b -> older_path fr m b c ->
  older_path fr (n + m) a c.
Proof.
  induction 1 as [a | n a a' b Hstep Hpath IH]; intros Hrest; simpl.
  - exact Hrest.
  - eapply older_path_step; [exact Hstep | apply IH; exact Hrest].
Qed.

(** The first loop stops on a frame that at most [n] steps to older
    frames reach. *)
Lemma walk_older_path (n : nat) :
  forall frame oldest_frame,
    walk_older fr n frame = inr oldest_frame ->
    exists j, (j <= n)%nat /\ older_path fr j frame oldest_frame.
Proof.
  induction n as [| n IH]; intros frame oldest_frame H; simpl in H.
  - inversion H; subst. exists 0%nat. split; [lia | constructor].
  - destruct (older fr frame) as [e | [candidate |]] eqn:Hstep.
    + destruct e; try discriminate.
      inversion H; subst. exists 0%nat. split; [lia | constructor].
    + destruct (IH _ _ H) as (j & Hj & Hpath).
      exists (S j). split; [lia |]. eapply older_path_step; eassumption.
    + inversion H; subst. exists 0%nat. split; [lia | constructor].
Qed.

(** The second loop stops on a frame from which, when [older] undoes
    [newer], at most [n] steps to older frames lead back. *)
Lemma walk_newer_path (n : nat) :
  newer_older_inverse fr ->
  forall frame newest_frame,
    walk_newer fr n frame = inr newest_frame ->
    exists k, (k <= n)%nat /\ older_path fr k newest_frame frame.
Proof.
  intros Hinv. induction n as [| n IH]; intros frame newest_frame H; simpl in H.
  - inversion H; subst. exists 0%nat. split; [lia | constructor].
  - destruct (newer fr frame) as [e | [candidate |]] eqn:Hstep.
    + discriminate.
    + destruct (IH _ _ H) as (k & Hk & Hpath).
      exists (S k). split; [lia |].
      eapply older_path_snoc; [exact Hpath | apply Hinv; exact Hstep].
    + inversion H; subst. exists 0%nat. split; [lia | constructor].
Qed.

(** Along a path of [m] steps to [oldest_frame], the [while] loop breaks
    within [m + 1] turns: it visits frames that are not the oldest one and
    ends on the first that is. *)
Lemma bt_frames_along_path (oldest_frame : Frame) (m : nat) (frame : Frame) :
  (forall f, frame_eqb fr f f = true) ->
  older_path fr m frame oldest_frame ->
  forall fuel, (m < fuel)%nat ->
    exists front final,
      bt_frames fr oldest_frame fuel frame = Some (inr (front ++ [final])) /\
      Forall (fun f => frame_eqb fr f oldest_frame = false) front /\
      frame_eqb fr final oldest_frame = true /\
      (List.length (front ++ [final]) <= m + 1)%nat.
Proof.
  intros Hrefl Hpath.
  induction Hpath as [a | m a b c Hstep Hpath IH]; intros fuel Hfuel;
    (destruct fuel as [| fuel]; [lia |]); simpl.
  - rewrite Hrefl. exists [], a. repeat split; auto.
  - destruct (frame_eqb fr a c) eqn:Heq.
    + exists [], a. repeat split; auto. simpl. lia.
    + rewrite Hstep.
      destruct (IH fuel ltac:(lia)) as (front & final & Hrun & Hfront & Hfinal & Hlen).
      rewrite Hrun. exists (a :: front), final. repeat split; auto.
      simpl in *. lia.
Qed.

(** C8, as the code has it.  On a frame chain where [older] undoes
    [newer] (a cyclic one too), the walker terminates once the fuel
    exceeds [2 * frame_count].  It raises only when one of the two bounded
    walks raises, and then that walk's exception.  When both walks
    return, the loop walks from the newest frame to the first frame equal
    to the oldest one, visits no frame past it, and the walker returns
    one line per frame visited, at most [2 * frame_count + 1] of them. *)
Theorem backtrace_terminates (fuel : nat) (frame_count : Z) (with_banner : bool) :
  (forall f, frame_eqb fr f f = true) ->
  newer_older_inverse fr ->
  (2 * Z.to_nat frame_count < fuel)%nat ->
  match walk_older fr (Z.to_nat frame_count) (selected_frame fr),
        walk_newer fr (Z.to_nat frame_count) (selected_frame fr) with
  | inl e, _ =>
      context_backtrace cfg ui fr fuel frame_count with_banner = Some (inl e)
  | inr _, inl e =>
      context_backtrace cfg ui fr fuel frame_count with_banner = Some (inl e)
  | inr oldest_frame, inr newest_frame =>
      exists front final,
        bt_frames fr oldest_frame fuel newest_frame = Some (inr (front ++ [final])) /\
        Forall (fun f => frame_eqb fr f oldest_frame = false) front /\
        frame_eqb fr final oldest_frame = true /\
        (List.length (front ++ [final]) <= 2 * Z.to_nat frame_count + 1)%nat /\
        context_backtrace cfg ui fr fuel frame_count with_banner
          = Some (inr ((if with_banner then [banner ui "backtrace"] else [])
                         ++ map (fun '(k, f) => bt_line cfg ui fr (selected_frame fr) f k)
                                (enumerate (front ++ [final]) 0)))
  end.
Proof.
  intros Hrefl Hinv Hfuel. unfold context_backtrace.
  destruct (walk_older fr (Z.to_nat frame_count) (selected_frame fr))
    as [e | oldest_frame] eqn:Hold; [reflexivity |].
  destruct (walk_newer fr (Z.to_nat frame_count) (selected_frame fr))
    as [e | newest_frame] eqn:Hnew; [reflexivity |].
  destruct (walk_older_path _ _ _ Hold) as (j & Hj & Hdown).
  destruct (walk_newer_path _ Hinv _ _ Hnew) as (k & Hk & Hup).
  pose proof (older_path_app _ _ _ _ _ Hup Hdown) as Hpath.
  destruct (bt_frames_along_path oldest_frame (k + j) newest_frame Hrefl Hpath
              fuel ltac:(lia)) as (front & final & Hrun & Hfront & Hfinal & Hlen).
  exists front, final.
  rewrite bt_loop_frames, Hrun.
  repeat split; auto. lia.
Qed.

End Backtrace.

Lemma ring_chain_inverse : newer_older_inverse ring_chain.
Proof.
  intros x y H. simpl in *.
  destruct x as [| [| [| x]]]; inversion H; reflexivity.
Qed.

(** C8 on the ring of three frames, with [frame_count = 10]: the ten
    steps to older frames end on frame 1, the ten steps to newer frames
    on frame 2, and the loop returns after the frames 2, 0 and 1. *)
Lemma backtrace_terminates_witness :
  exists front final,
    bt_frames ring_chain 1%nat 21 2%nat = Some (inr (front ++ [final])) /\
    Forall (fun f => frame_eqb ring_chain f 1%nat = false) front /\
    frame_eqb ring_chain final 1%nat = true /\
    (List.length (front ++ [final]) <= 2 * Z.to_nat 10 + 1)%nat /\
    context_backtrace default_config plain_ui ring_chain 21 10 false
      = Some (inr ((if false then [banner plain_ui "backtrace"] else [])
                     ++ map (fun '(k, f) =>
                               bt_line default_config plain_ui ring_chain
                                 (selected_frame ring_chain) f k)
                            (enumerate (front ++ [final]) 0))).
Proof.
  exact (backtrace_terminates default_config plain_ui ring_chain 21 10 false
           (fun f => Nat.eqb_refl f) ring_chain_inverse
           ltac:(vm_compute; lia)).
Defined.

(** On the chain with a cycle the [while] loop never reaches its
    [break]. *)
Lemma cyclic_chain_loops (fuel : nat) :
  forall i, bt_loop default_config plain_ui cyclic_chain 0%nat 0%nat fuel 1%nat i = None.
Proof.
  induction fuel as [| fuel IH]; intros i; simpl.
  - reflexivity.
  - rewrite IH. reflexivity.
Qed.

(** C8 as stated fails on malformed chains: with [frame_count = 1] the
    walker emits four frame lines on the chain with a detour, more than
    [2 * 1 + 1], and on the chain with a cycle no amount of fuel lets it
    return. *)
Lemma malformed_chain_unbounded :
  context_backtrace default_config plain_ui detour_chain 9 1 false
    = Some (inr ["   f 0 0x1"; "   f 1 0x2"; "   f 2 0x3"; "   f 3 0x9"]) /\
  (forall fuel,
     context_backtrace default_config plain_ui cyclic_chain fuel 1 false = None).
Proof.
  split; [reflexivity |].
  intros fuel. unfold context_backtrace. simpl.
  rewrite cyclic_chain_loops. reflexivity.
Qed.

Section ThreeFrames.

Variable cfg : Config.
Variable ui : Ui.
Variable pc : nat -> Z.
Variable sym : Z -> string.

(** C7, as the code has it.  With [frame_count = 10] on a chain of
    exactly three frames, whichever of them is selected, the walker
    returns (three turns of the loop suffice) the banner line when
    [with_banner] is set, followed by exactly three frame lines, for the
    frames 0, 1 and 2 in that order.  The line of the selected frame
    carries the configured prefix as its marker and every other line
    carries blanks of the same width; the two differ whenever the
    colouring keeps the prefix apart from the blanks. *)
Theorem backtrace_of_three_frames (selected fuel : nat) (with_banner : bool) :
  (selected < 3)%nat ->
  (3 <= fuel)%nat ->
  let fr := chain 3 selected pc sym in
  let marked := (" " ++ B_prefix ui (backtrace_prefix cfg))%string in
  let unmarked :=
    (" " ++ B_prefix ui (py_repeat " " (String.length (backtrace_prefix cfg))))%string in
  context_backtrace cfg ui fr fuel 10 with_banner
    = Some (inr ((if with_banner then [banner ui "backtrace"] else [])
                   ++ [bt_line cfg ui fr selected 0%nat 0;
                       bt_line cfg ui fr selected 1%nat 1;
                       bt_line cfg ui fr selected 2%nat 2])) /\
  (forall frame i,
     bt_line cfg ui fr selected frame i
       = join " " (bt_marker cfg ui fr selected frame :: bt_rest cfg ui fr frame i)) /\
  bt_marker cfg ui fr selected selected = marked /\
  (forall frame, frame <> selected ->
     bt_marker cfg ui fr selected frame = unmarked) /\
  (B_prefix ui (backtrace_prefix cfg)
     <> B_prefix ui (py_repeat " " (String.length (backtrace_prefix cfg))) ->
   marked <> unmarked).
Proof.
  intros Hsel Hfuel fr marked unmarked.
  split; [| split; [| split; [| split]]].
  - destruct fuel as [| [| [| fuel]]]; try lia.
    destruct selected as [| [| [| s]]]; try lia;
      destruct with_banner; reflexivity.
  - reflexivity.
  - unfold bt_marker, fr. cbn [frame_eqb chain]. rewrite Nat.eqb_refl. reflexivity.
  - intros frame Hne. unfold bt_marker, fr. cbn [frame_eqb chain].
    apply Nat.eqb_neq in Hne. rewrite Hne. reflexivity.
  - intros Hdiff Heq. apply Hdiff. unfold marked, unmarked in Heq.
    inversion Heq. reflexivity.
Qed.

End ThreeFrames.

(** C7 with the middle frame selected and the banner left out. *)
Lemma backtrace_of_three_frames_witness :
  context_backtrace default_config plain_ui
      (chain 3 1 (fun f => Z.of_nat f) (fun _ => "main")) 3 10 false
    = Some (inr ["   f 0 0x0 main"; " > f 1 0x1 main"; "   f 2 0x2 main"]) /\
  (" " ++ B_prefix plain_ui (backtrace_prefix default_config))%string
    <> (" " ++ B_prefix plain_ui
                 (py_repeat " " (String.length (backtrace_prefix default_config))))%string.
Proof.
  destruct (backtrace_of_three_frames default_config plain_ui
              (fun f => Z.of_nat f) (fun _ => "main") 1 3 false)
    as (Hlines & _ & _ & _ & Hdistinct).
  - lia.
  - lia.
  - split.
    + exact Hlines.
    + apply Hdistinct. discriminate.
Defined.

(** C7 as stated fails: called as the context section calls it, with the
    banner, the walker returns four lines for three frames; and with a
    blank configured as prefix the selected frame's marker is the marker
    of every other line. *)
Lemma backtrace_has_banner_line :
  context_backtrace default_config plain_ui
      (chain 3 1 (fun f => Z.of_nat f) (fun _ => "main")) 3 10 true
    = Some (inr ["--backtrace--";
                 "   f 0 0x0 main"; " > f 1 0x1 main"; "   f 2 0x2 main"]) /\
  bt_marker blank_prefix_config plain_ui
      (chain 3 1 (fun f => Z.of_nat f) (fun _ => "main")) 1%nat 1%nat
    = bt_marker blank_prefix_config plain_ui
        (chain 3 1 (fun f => Z.of_nat f) (fun _ => "main")) 1%nat 0%nat.
Proof. split; reflexivity. Qed.

(** * Further properties *)

(** ** Deliveries under failure *)

Lemma left_open_bind {A B : Type} (m : IO A) (f : A -> IO B) :
  left_open [] (fst m) = [] ->
  (forall a, left_open [] (fst (f a)) = []) ->
  left_open [] (fst (bind m f)) = [].
Proof.
  intros Hm Hf. destruct m as [t [e | a]]; simpl in *.
  - exact Hm.
  - specialize (Hf a). destruct (f a) as [t' r]; simpl in *.
    rewrite left_open_app, Hm. exact Hf.
Qed.

Lemma left_open_for_each {A : Type} (l : list A) (body : A -> IO unit) :
  (forall x, left_open [] (fst (body x)) = []) ->
  left_open [] (fst (for_each l body)) = [].
Proof.
  intros Hbody. induction l as [| x rest IH]; simpl.
  - reflexivity.
  - apply left_open_bind; [apply Hbody | intros _; exact IH].
Qed.

(** X1.  No refresh leaves a file open: whatever the arguments, the
    configuration and the failures of the system, every path that
    [context] opens is closed again by the end of its trace, also when a
    delivery raises half-way. *)
Theorem refresh_leaves_nothing_open (cfg : Config) (ui : Ui) (sys : System)
    (p : Rendered) (g : Globals) (subcontext : option (list string)) :
  left_open [] (fst (context cfg ui sys p g subcontext)) = [].
Proof.
  unfold context.
  destruct (context_batches cfg ui sys p g subcontext) as [e | [result q]].
  - reflexivity.
  - apply left_open_bind.
    + apply show_context_closes.
    + intros _. apply left_open_for_each. intros [tty content].
      apply show_context_closes.
Qed.


Section DeliveryPrefix.

Variable cfg : Config.
Variable sys : System.



End DeliveryPrefix.

(** X2 on a file opened with an encoding that cannot hold the second
    line: the first line is written, the write of the second raises a
    [UnicodeEncodeError], and the file is closed. *)
Lemma encoding_error_stops_delivery :
  show_context default_config (ascii_only (Some "/dev/pts/0")) "/tmp/ctx"
      ["rax 0"; String "233"%char "t"; "rbx 0"]
    = ([EvOpen "/tmp/ctx"; EvWrite (File "/tmp/ctx") ("rax 0" ++ NL);
        EvClose "/tmp/ctx"],
       inl UnicodeEncodeError).
Proof. reflexivity. Qed.

(** ** The partitioning loop *)

Lemma dict_get_set (d key : string) (v : list string) (q : Queue) :
  dict_get d (dict_set key v q) = if String.eqb d key then v else dict_get d q.
Proof.
  induction q as [| [k w] q IH]; simpl.
  - reflexivity.
  - destruct (String.eqb key k) eqn:Hk; simpl.
    + apply String.eqb_eq in Hk. subst k. destruct (String.eqb d key); reflexivity.
    + rewrite IH. destruct (String.eqb d k) eqn:Hd; [| reflexivity].
      apply String.eqb_eq in Hd. subst k.
      rewrite String.eqb_sym, Hk. reflexivity.
Qed.

Lemma dict_mem_set (d key : string) (v : list string) (q : Queue) :
  dict_mem d (dict_set key v q) = String.eqb d key || dict_mem d q.
Proof.
  induction q as [| [k w] q IH]; simpl.
  - reflexivity.
  - destruct (String.eqb key k) eqn:Hk; simpl.
    + apply String.eqb_eq in Hk. subst k.
      destruct (String.eqb d key); reflexivity.
    + rewrite IH. destruct (String.eqb d k), (String.eqb d key); reflexivity.
Qed.

Lemma dict_mem_keys (d : string) (q : Queue) :
  dict_mem d q = true <-> In d (map fst q).
Proof.
  induction q as [| [k w] q IH]; simpl.
  - split; [discriminate | contradiction].
  - rewrite orb_true_iff, IH, String.eqb_eq. intuition congruence.
Qed.

Lemma dict_get_absent (d : string) (q : Queue) :
  dict_mem d q = false -> dict_get d q = [].
Proof.
  induction q as [| [k w] q IH]; simpl; [reflexivity |].
  intros H. apply orb_false_iff in H as [Hk Hq]. rewrite Hk. apply IH, Hq.
Qed.

Lemma dict_set_keys (key : string) (v : list string) (q : Queue) :
  map fst (dict_set key v q)
    = if dict_mem key q then map fst q else map fst q ++ [key].
Proof.
  induction q as [| [k w] q IH]; simpl.
  - reflexivity.
  - destruct (String.eqb key k) eqn:Hk; simpl.
    + reflexivity.
    + rewrite IH. destruct (dict_mem key q); reflexivity.
Qed.

Lemma dict_set_NoDup (key : string) (v : list string) (q : Queue) :
  NoDup (map fst q) -> NoDup (map fst (dict_set key v q)).
Proof.
  intros H. rewrite dict_set_keys. destruct (dict_mem key q) eqn:Hm.
  - exact H.
  - apply NoDup_app; [exact H | repeat constructor; intros [] |].
    intros x Hx [<- | []].
    apply dict_mem_keys in Hx. congruence.
Qed.

Lemma list_remove_first (x : string) (front back : list string) :
  ~ In x front -> list_remove x (front ++ x :: back) = Some (front ++ back).
Proof.
  induction front as [| y front IH]; intros Hnot; simpl.
  - rewrite String.eqb_refl. reflexivity.
  - destruct (String.eqb x y) eqn:Hxy.
    + apply String.eqb_eq in Hxy. subst y. exfalso. apply Hnot. left. reflexivity.
    + rewrite IH; [reflexivity |]. intros Hin. apply Hnot. right. exact Hin.
Qed.

(** When the producers of the sections that stay return, the loop over
    them appends their lines in order. *)
Lemma render_args_flat (p : Rendered) (args result : list string) :
  Forall (returns p) args ->
  render_args p args result = inr (result ++ flat_map (section_lines p) args).
Proof.
  intros Hret. revert result.
  induction Hret as [| arg rest Harg Hrest IH]; intros result; simpl.
  - rewrite app_nil_r. reflexivity.
  - unfold section_lines at 1. unfold returns in Harg.
    destruct (context_sections p arg) as [[e | lines] |]; [contradiction | |];
      rewrite IH.
    + rewrite <- app_assoc. reflexivity.
    + reflexivity.
Qed.

(** When the partitioning loop returns, the producer of every section
    that moved has returned. *)
Lemma split_loop_moved_return (cfg : Config) (p : Rendered) (todo : list string) :
  forall st st',
    split_loop cfg p todo st = inr st' ->
    Forall (fun key => moves cfg key = true -> returns p key) todo.
Proof.
  induction todo as [| key todo IH]; intros st st' Hrun.
  - constructor.
  - cbn [split_loop] in Hrun.
    destruct (split_step cfg p st key) as [e | st1] eqn:Hstep; [discriminate |].
    constructor; [| apply (IH st1 st' Hrun)].
    intros Hm. unfold split_step in Hstep. destruct st as [q args].
    unfold moves in Hm. unfold returns.
    destruct (splited_config_outputs cfg key) as [dest |]; [| discriminate].
    rewrite Hm in Hstep.
    destruct (context_sections p key) as [[e | lines] |]; [discriminate | |];
      exact I.
Qed.

Section Partition.

Variable cfg : Config.
Variable p : Rendered.

(** The state of the loop after the keys [done], with the keys [todo]
    still to come: the sections that stay and the keys to come are in
    [args], and each destination's batch holds the lines of the sections
    sent to it, in the order of the keys. *)
Lemma split_loop_spec (todo : list string) :
  forall (done : list string) (q : Queue) (args : list string)
         (q' : Queue) (rest : list string),
    args = filter (stays cfg) done ++ todo ->
    (forall d, dict_get d q = flat_map (section_lines p) (filter (sent_to cfg d) done)) ->
    (forall d, dict_mem d q = existsb (sent_to cfg d) done) ->
    NoDup (map fst q) ->
    split_loop cfg p todo (q, args) = inr (q', rest) ->
    rest = filter (stays cfg) (done ++ todo) /\
    (forall d, dict_get d q'
               = flat_map (section_lines p) (filter (sent_to cfg d) (done ++ todo))) /\
    (forall d, dict_mem d q' = existsb (sent_to cfg d) (done ++ todo)) /\
    NoDup (map fst q').
Proof.
  induction todo as [| key todo IH]; intros done q args q' rest Hargs Hget Hmem Hdup Hrun.
  - simpl in Hrun. inversion Hrun; subst. rewrite !app_nil_r. auto.
  - cbn [split_loop] in Hrun. unfold split_step in Hrun.
    destruct (splited_config_outputs cfg key) as [dest |] eqn:Hdest;
      [| discriminate].
    assert (Hknown : known_key cfg key) by (unfold known_key; congruence).
    destruct (context_sections_known cfg p key Hknown) as [func Hfunc].
    assert (Hsent : forall d, sent_to cfg d key
                              = negb (String.eqb dest "nosplit") && String.eqb dest d)
      by (intros d; unfold sent_to; rewrite Hdest; reflexivity).
    assert (Hstays : stays cfg key = String.eqb dest "nosplit")
      by (unfold stays, moves; rewrite Hdest; apply negb_involutive).
    replace (done ++ key :: todo) with ((done ++ [key]) ++ todo)
      by (rewrite <- app_assoc; reflexivity).
    destruct (String.eqb dest "nosplit") eqn:Hsplit; cbn [negb] in Hrun.
    + apply (IH (done ++ [key]) q args q' rest); auto.
      * rewrite filter_app. simpl. rewrite Hstays, <- app_assoc. exact Hargs.
      * intros d. rewrite filter_app. simpl. rewrite Hsent. simpl.
        rewrite app_nil_r. apply Hget.
      * intros d. rewrite existsb_app. simpl. rewrite Hsent. simpl.
        rewrite !orb_false_r. apply Hmem.
    + rewrite Hfunc in Hrun. destruct func as [e | lines]; [discriminate |].
      assert (Hlines : section_lines p key = lines)
        by (unfold section_lines; rewrite Hfunc; reflexivity).
      assert (Hnot : ~ In key (filter (stays cfg) done)).
      { intros Hin. apply filter_In in Hin as [_ Hin]. congruence. }
      rewrite Hargs, (list_remove_first key _ todo Hnot) in Hrun.
      set (q1 := if negb (dict_mem dest q) then dict_set dest [] q else q) in Hrun.
      assert (Hq1get : forall d, dict_get d q1 = dict_get d q).
      { intros d. unfold q1. destruct (dict_mem dest q) eqn:Hm; simpl; [reflexivity |].
        rewrite dict_get_set. destruct (String.eqb d dest) eqn:Hd; [| reflexivity].
        apply String.eqb_eq in Hd. subst d. symmetry. apply dict_get_absent, Hm. }
      assert (Hq1mem : forall d, dict_mem d q1 = String.eqb d dest || dict_mem d q).
      { intros d. unfold q1. destruct (dict_mem dest q) eqn:Hm; simpl.
        - destruct (String.eqb d dest) eqn:Hd; [| reflexivity].
          apply String.eqb_eq in Hd. subst d. rewrite Hm. reflexivity.
        - apply dict_mem_set. }
      assert (Hq1dup : NoDup (map fst q1)).
      { unfold q1. destruct (dict_mem dest q); simpl;
          [exact Hdup | apply dict_set_NoDup, Hdup]. }
      apply (IH (done ++ [key]) _ _ q' rest) in Hrun; auto.
      * rewrite filter_app. simpl. rewrite Hstays, app_nil_r. reflexivity.
      * intros d. rewrite dict_get_set, !Hq1get, filter_app, flat_map_app.
        simpl. rewrite Hsent, (String.eqb_sym dest d). simpl.
        destruct (String.eqb d dest) eqn:Hd.
        -- apply String.eqb_eq in Hd. subst d. simpl.
           rewrite Hlines, app_nil_r, Hget. reflexivity.
        -- simpl. rewrite app_nil_r. apply Hget.
      * intros d. rewrite dict_mem_set, Hq1mem, existsb_app. simpl.
        rewrite Hsent, (String.eqb_sym dest d), Hmem. simpl.
        destruct (String.eqb d dest), (existsb (sent_to cfg d) done); reflexivity.
      * apply dict_set_NoDup, Hq1dup.
Qed.

(** X3.  The partitioning loop sorts the requested sections by
    destination and loses nothing: once it has run, the sections left on
    the default stream are the requested ones whose destination is
    'nosplit', in the requested order; there is one batch per other
    destination in use (no destination twice, none under 'nosplit'), and
    the batch of a destination is the output of the sections sent there,
    concatenated in the requested order; the producer of every section
    that was sent away has returned that output. *)
Theorem partition_by_destination (ks rest : list string) (q : Queue) :
  split_loop cfg p ks ([], ks) = inr (q, rest) ->
  rest = filter (stays cfg) ks /\
  (forall d, dict_get d q
             = flat_map (section_lines p) (filter (sent_to cfg d) ks)) /\
  (forall d, dict_mem d q = existsb (sent_to cfg d) ks) /\
  NoDup (map fst q) /\
  dict_mem "nosplit" q = false /\
  Forall (fun key => moves cfg key = true -> returns p key) ks.
Proof.
  intros Hrun.
  destruct (split_loop_spec ks [] [] ks q rest eq_refl
              (fun _ => eq_refl) (fun _ => eq_refl) (NoDup_nil _) Hrun)
    as (Hrest & Hget & Hmem & Hdup).
  cbn [app] in Hrest, Hget, Hmem.
  split; [exact Hrest |]. split; [exact Hget |]. split; [exact Hmem |].
  split; [exact Hdup |].
  split; [| apply (split_loop_moved_return cfg p ks _ _ Hrun)].
  rewrite Hmem. clear. induction ks as [| key ks IH]; simpl; [reflexivity |].
  rewrite IH, orb_false_r. unfold sent_to.
  destruct (splited_config_outputs cfg key) as [dest |]; [| reflexivity].
  destruct (String.eqb dest "nosplit"); reflexivity.
Qed.

End Partition.

(** X3 on a refresh over r, d, s, d with the disasm section sent to a
    file. *)
Lemma partition_by_destination_witness :
  ["r"; "s"] = filter (stays (config_with false "stdout" "/tmp/d"))
                 ["r"; "d"; "s"; "d"] /\
  (forall d, dict_get d [("/tmp/d", ["DISASM"; "nop"; "DISASM"; "nop"])]
             = flat_map (section_lines some_lines)
                 (filter (sent_to (config_with false "stdout" "/tmp/d") d)
                    ["r"; "d"; "s"; "d"])) /\
  (forall d, dict_mem d [("/tmp/d", ["DISASM"; "nop"; "DISASM"; "nop"])]
             = existsb (sent_to (config_with false "stdout" "/tmp/d") d)
                 ["r"; "d"; "s"; "d"]) /\
  NoDup (map fst [("/tmp/d", ["DISASM"; "nop"; "DISASM"; "nop"])]) /\
  dict_mem "nosplit" [("/tmp/d", ["DISASM"; "nop"; "DISASM"; "nop"])] = false /\
  Forall (fun key => moves (config_with false "stdout" "/tmp/d") key = true ->
                     returns some_lines key)
    ["r"; "d"; "s"; "d"].
Proof.
  apply (partition_by_destination (config_with false "stdout" "/tmp/d") some_lines
           ["r"; "d"; "s"; "d"] ["r"; "s"]
           [("/tmp/d", ["DISASM"; "nop"; "DISASM"; "nop"])]).
  reflexivity.
Defined.

(** ** How a refresh ends *)

Lemma first_chars_cases (args : list string) :
  match first_chars args with
  | inr ks => Forall (fun a => a <> "") args
  | inl IndexError => Exists (fun a => a = "") args
  | inl _ => False
  end.
Proof.
  induction args as [| a rest IH]; simpl.
  - constructor.
  - destruct a as [| c a]; simpl.
    + left. reflexivity.
    + destruct (first_chars rest) as [e | ks].
      * destruct e; try contradiction. right. exact IH.
      * constructor; [discriminate | exact IH].
Qed.

(** The partitioning loop raises nothing but the [KeyError] of the first
    key that is no section key and what the producer of a section
    raises. *)
Lemma split_loop_cases (cfg : Config) (p : Rendered) (tmp_args : list string) :
  forall (q : Queue) (args : list string),
    (forall key, moves cfg key = true ->
       (count_occ string_dec tmp_args key <= count_occ string_dec args key)%nat) ->
    match split_loop cfg p tmp_args (q, args) with
    | inr _ => Forall (known_key cfg) tmp_args
    | inl e =>
        (exists front key back,
           tmp_args = front ++ key :: back /\
           Forall (known_key cfg) front /\
           splited_config_outputs cfg key = None /\
           e = KeyError key) \/
        (exists key, In key tmp_args /\ raises p key e)
    end.
Proof.
  induction tmp_args as [| key rest IH]; intros q args Hinv.
  - simpl. constructor.
  - cbn [split_loop]. unfold split_step.
    pose proof (Hinv key) as Hhere. unfold moves in Hhere.
    destruct (splited_config_outputs cfg key) as [dest |] eqn:Hdest.
    + assert (Hknown : known_key cfg key) by (unfold known_key; congruence).
      destruct (context_sections_known cfg p key Hknown) as [func Hfunc].
      assert (Hwrap : forall st,
                (forall k, moves cfg k = true ->
                   (count_occ string_dec rest k <= count_occ string_dec (snd st) k)%nat) ->
                match split_loop cfg p rest st with
                | inr _ => Forall (known_key cfg) (key :: rest)
                | inl e =>
                    (exists front k back,
                       key :: rest = front ++ k :: back /\
                       Forall (known_key cfg) front /\
                       splited_config_outputs cfg k = None /\
                       e = KeyError k) \/
                    (exists k, In k (key :: rest) /\ raises p k e)
                end).
      { intros [q0 a0] H0. specialize (IH q0 a0 H0).
        destruct (split_loop cfg p rest (q0, a0)) as [e | st'].
        - destruct IH as [(front & k & back & -> & Hfront & Hnone & ->)
                         | (k & Hin & Hraise)].
          + left. exists (key :: front), k, back. auto.
          + right. exists k. split; [right |]; assumption.
        - constructor; assumption. }
      destruct (negb (String.eqb dest "nosplit")) eqn:Hmove.
      * rewrite Hfunc. destruct func as [e | lines].
        -- right. exists key. split; [left; reflexivity | exact Hfunc].
        -- specialize (Hhere eq_refl). simpl in Hhere.
           destruct (string_dec key key) as [_ | Hn]; [| contradiction].
           assert (Hin : In key args) by (apply (count_occ_In string_dec); lia).
           destruct (list_remove_in key args Hin) as [args' Hrm]. rewrite Hrm.
           apply Hwrap. intros k Hk. specialize (Hinv k Hk). simpl in *.
           rewrite (list_remove_count key k args args' Hrm) in Hinv.
           destruct (string_dec key k); lia.
      * apply Hwrap. intros k Hk. specialize (Hinv k Hk). simpl in *.
        destruct (string_dec key k); lia.
    + left. exists [], key, rest. auto.
Qed.

(** The ways in which the assembly of a refresh ends. *)
Lemma context_batches_cases (cfg : Config) (ui : Ui) (sys : System) (p : Rendered)
    (g : Globals) (subcontext : option (list string)) :
  let args := requested_args cfg subcontext in
  match context_batches cfg ui sys p g subcontext with
  | inr _ =>
      Forall (fun a => a <> "") args /\
      (exists ks,
         first_chars args = inr ks /\ Forall (known_key cfg) ks /\
         Forall (returns p) ks) /\
      ttyname1 sys <> None
  | inl e =>
      (e = IndexError /\ Exists (fun a => a = "") args) \/
      (exists ks front key back,
         first_chars args = inr ks /\ ks = front ++ key :: back /\
         Forall (known_key cfg) front /\ splited_config_outputs cfg key = None /\
         e = KeyError key) \/
      (exists ks key,
         first_chars args = inr ks /\ In key ks /\ raises p key e) \/
      (e = OSError /\
       (exists ks,
          first_chars args = inr ks /\ Forall (known_key cfg) ks /\
          Forall (returns p) ks) /\
       ttyname1 sys = None)
  end.
Proof.
  intros args.
  pose proof (first_chars_cases args) as Hfirst.
  destruct (first_chars args) as [e | ks] eqn:Hks.
  - assert (H : context_batches cfg ui sys p g subcontext = inl e)
      by (unfold context_batches; fold args; rewrite Hks; reflexivity).
    rewrite H. left. destruct e; try contradiction. auto.
  - pose proof (split_loop_cases cfg p ks [] ks (fun _ _ => le_n _)) as Hsplit.
    destruct (split_loop cfg p ks ([], ks)) as [e | [q rest]] eqn:Hrun.
    + assert (H : context_batches cfg ui sys p g subcontext = inl e)
        by (unfold context_batches; fold args; rewrite Hks, Hrun; reflexivity).
      rewrite H. right.
      destruct Hsplit as [(front & key & back & Hsplit & Hfront & Hnone & ->)
                         | (key & Hin & Hraise)].
      * left. exists ks, front, key, back. auto.
      * right. left. exists ks, key. auto.
    + pose proof (context_batches_known cfg ui sys p g subcontext ks Hks Hsplit) as H.
      destruct (context_batches cfg ui sys p g subcontext) as [e | batches].
      * right. right.
        destruct H as [(-> & Htty & Hall) | (key & Hin & Hraise)].
        -- right. split; [reflexivity |]. split; [eauto | exact Htty].
        -- left. exists ks, key. auto.
      * destruct H as [Htty Hall]. split; [exact Hfirst |]. split; eauto.
Qed.

(** X4.  How the assembly of a refresh can end (the legend and banner
    helpers being pure).  It returns its batches only when every token
    reduces to a section key, every requested producer returns and
    standard output is a terminal.  Otherwise it raises: an [IndexError]
    because a requested token is empty; the [KeyError] of the first token
    whose first character is no section key, every token being non-empty;
    an exception that the producer of a requested section raises; or the
    [OSError] of the terminal query, when every token reduces to a
    section key, every requested producer returns and standard output is
    no terminal.  Nothing else is raised; in particular, [args.remove]
    never fails. *)
Theorem refresh_outcome (cfg : Config) (ui : Ui) (sys : System) (p : Rendered)
    (g : Globals) (subcontext : option (list string)) :
  let args := requested_args cfg subcontext in
  match context_batches cfg ui sys p g subcontext with
  | inr _ =>
      Forall (fun a => a <> "") args /\
      (exists ks,
         first_chars args = inr ks /\ Forall (known_key cfg) ks /\
         Forall (returns p) ks) /\
      ttyname1 sys <> None
  | inl e =>
      (e = IndexError /\ Exists (fun a => a = "") args) \/
      (exists ks front key back,
         first_chars args = inr ks /\ ks = front ++ key :: back /\
         Forall (known_key cfg) front /\ splited_config_outputs cfg key = None /\
         e = KeyError key) \/
      (exists ks key,
         first_chars args = inr ks /\ In key ks /\ raises p key e) \/
      (e = OSError /\
       (exists ks,
          first_chars args = inr ks /\ Forall (known_key cfg) ks /\
          Forall (returns p) ks) /\
       ttyname1 sys = None)
  end.
Proof.
  apply context_batches_cases.
Qed.

(** ** A refresh without split-off sections *)

Lemma sent_to_moves (cfg : Config) (dest key : string) :
  sent_to cfg dest key = true -> moves cfg key = true.
Proof.
  unfold sent_to, moves. destruct (splited_config_outputs cfg key); [| discriminate].
  intros H. apply andb_true_iff in H as [H _]. exact H.
Qed.

Lemma dict_empty (q : Queue) : (forall d, dict_mem d q = false) -> q = [].
Proof.
  destruct q as [| [k v] q]; [reflexivity |].
  intros H. specialize (H k). simpl in H. rewrite String.eqb_refl in H. discriminate.
Qed.

Lemma bind_ret_tt (m : IO unit) : bind m (fun _ => ret tt) = m.
Proof.
  destruct m as [t [e | []]]; simpl; [reflexivity |].
  rewrite app_nil_r. reflexivity.
Qed.

(** X5.  With every section on the destination 'nosplit' (the default),
    a refresh on a terminal whose requested sections return their output
    makes exactly one delivery, to the primary destination: the legend
    line, the output of the requested sections in the requested order (a
    section requested twice is rendered twice), one blank banner line,
    and the stored signal lines.  When no section is requested at all (an
    empty section order) the legend and the banner are left out, and only
    the signal lines are delivered. *)
Theorem refresh_without_split (cfg : Config) (ui : Ui) (sys : System)
    (p : Rendered) (g : Globals) (subcontext : option (list string))
    (ks : list string) (tty : string) :
  (forall key, moves cfg key = false) ->
  first_chars (requested_args cfg subcontext) = inr ks ->
  Forall (known_key cfg) ks ->
  Forall (returns p) ks ->
  ttyname1 sys = Some tty ->
  let result :=
    match ks with
    | [] => []
    | _ => M_legend ui :: flat_map (section_lines p) ks ++ [banner ui ""]
    end ++ last_signal g in
  context_batches cfg ui sys p g subcontext = inr (result, []) /\
  context cfg ui sys p g subcontext
    = show_context cfg sys (config_output cfg) result.
Proof.
  intros Hstay Hks Hknown Hret Htty result.
  destruct (split_loop_total cfg p ks Hknown Hret [] ks (fun _ _ => le_n _))
    as (q & rest & Hsplit).
  destruct (split_loop_spec cfg p ks [] [] ks q rest eq_refl
              (fun _ => eq_refl) (fun _ => eq_refl) (NoDup_nil _) Hsplit)
    as (Hrest & _ & Hmem & _).
  cbn [app] in Hrest, Hmem.
  assert (Hq : q = []).
  { apply dict_empty. intros d. rewrite Hmem.
    apply not_true_is_false. intros H. apply existsb_exists in H as (k & _ & Hk).
    apply sent_to_moves in Hk. rewrite Hstay in Hk. discriminate. }
  assert (Hall : filter (stays cfg) ks = ks).
  { apply forallb_filter_id. apply forallb_forall.
    intros k _. unfold stays. rewrite Hstay. reflexivity. }
  rewrite Hall in Hrest. subst q rest.
  assert (Hbatches : context_batches cfg ui sys p g subcontext = inr (result, [])).
  { unfold context_batches. rewrite Hks, Hsplit.
    rewrite render_args_flat by exact Hret. rewrite Htty. cbn [dict_mem].
    unfold result, context_signal.
    destruct ks as [| k ks']; [reflexivity |].
    cbn [app List.length Nat.ltb Nat.leb]. rewrite <- app_assoc. reflexivity. }
  split; [exact Hbatches |].
  unfold context. rewrite Hbatches. cbn [for_each]. apply bind_ret_tt.
Qed.

(** X5 on the default configuration and section order. *)
Lemma refresh_without_split_witness :
  context_batches default_config plain_ui (system_with (Some "/dev/pts/0"))
      some_lines no_signal None
    = inr (["LEGEND"; "REGS"; "rax 0"; "DISASM"; "nop"; "CODE";
            "STACK"; "00 rsp"; "BACKTRACE"; "f 0"; "----"], []) /\
  context default_config plain_ui (system_with (Some "/dev/pts/0"))
      some_lines no_signal None
    = show_context default_config (system_with (Some "/dev/pts/0"))
        (config_output default_config)
        ["LEGEND"; "REGS"; "rax 0"; "DISASM"; "nop"; "CODE";
         "STACK"; "00 rsp"; "BACKTRACE"; "f 0"; "----"].
Proof.
  apply (refresh_without_split default_config plain_ui
           (system_with (Some "/dev/pts/0")) some_lines no_signal None
           ["r"; "d"; "c"; "s"; "b"] "/dev/pts/0").
  - intros key. unfold moves, splited_config_outputs.
    repeat (destruct (String.eqb key _); [reflexivity |]). reflexivity.
  - reflexivity.
  - repeat constructor; discriminate.
  - repeat constructor.
  - reflexivity.
Defined.

(** ** The first delivery that fails *)




(** ** The session *)

(** X7.  Through any sequence of lifecycle events and refreshes, the
    stored signal record is the record of the last event of the sequence
    (the initial record when there was none): events before the last one
    leave no trace in it, and refreshes never change it. *)
Theorem session_keeps_last_event (cfg : Config) (ui : Ui) (sys : System)
    (inf : Inferior) (p : Rendered) (actions : list Action)
    (g : Globals) (t : list Event) :
  fst (run cfg ui sys inf p actions (g, t))
    = match last_event actions with
      | Some signal => save_signal ui inf signal g
      | None => g
      end.
Proof.
  revert g t. induction actions as [| a rest IH]; intros g t.
  - reflexivity.
  - unfold run in *. cbn [fold_left last_event]. destruct a as [signal | sub].
    + cbn [step]. rewrite IH. destruct (last_event rest); reflexivity.
    + cbn [step]. rewrite IH. destruct (last_event rest); reflexivity.
Qed.

(** X8.  Under rr the stored record never depends on the fault address:
    two inferiors that run under rr and agree on the program counter give
    the same record for every event.  Without rr, the program counter is
    never used. *)
Theorem save_signal_under_rr (ui : Ui) (inf inf' : Inferior)
    (signal : GdbEvent) (g g' : Globals) :
  is_rr_present inf = is_rr_present inf' ->
  (if is_rr_present inf then regs_pc inf = regs_pc inf'
   else si_addr inf = si_addr inf') ->
  save_signal ui inf signal g = save_signal ui inf' signal g'.
Proof.
  intros Hrr Hsame. unfold save_signal.
  destruct signal as [| code | name | bps |]; try reflexivity.
  rewrite <- Hrr. destruct (is_rr_present inf); rewrite Hsame; reflexivity.
Qed.

(** X8 on a segmentation fault under rr, with two different fault
    addresses. *)
Lemma save_signal_under_rr_witness :
  save_signal plain_ui
    {| is_rr_present := true; regs_pc := 4096; si_addr := Some 0%Z |}
    (SignalEvent "SIGSEGV") no_signal
  = save_signal plain_ui
      {| is_rr_present := true; regs_pc := 4096; si_addr := None |}
      (SignalEvent "SIGSEGV") no_signal.
Proof.
  apply save_signal_under_rr; reflexivity.
Defined.

(** ** The source window, line by line *)

Lemma enumerate_In {A : Type} (l : list A) (k ln : Z) (x : A) :
  In (ln, x) (enumerate l k) ->
  exists i, ln = (k + Z.of_nat i)%Z /\ nth_error l i = Some x.
Proof.
  revert k. induction l as [| y l IH]; intros k Hin; simpl in Hin.
  - contradiction.
  - destruct Hin as [Heq | Hin].
    + inversion Heq; subst. exists 0%nat. split; [lia | reflexivity].
    + destruct (IH _ Hin) as (i & Hln & Hnth).
      exists (S i). split; [lia | exact Hnth].
Qed.

Lemma enumerate_length {A : Type} (l : list A) (k : Z) :
  List.length (enumerate l k) = List.length l.
Proof.
  revert k. induction l as [| y l IH]; intros k; simpl; [| rewrite IH]; reflexivity.
Qed.

Lemma Zseq_In (k x : Z) (n : nat) :
  In x (Zseq k n) <-> (k <= x < k + Z.of_nat n)%Z.
Proof.
  revert k. induction n as [| n IH]; intros k; simpl.
  - lia.
  - rewrite IH. lia.
Qed.

(** A slice with bounds that are not negative: the bounds are cut at the
    length of the list. *)
Lemma py_slice_nonneg {A : Type} (l : list A) (start stop : Z) :
  (0 <= start)%Z -> (0 <= stop)%Z ->
  py_slice l start stop
    = firstn (Z.to_nat (Z.min stop (Z.of_nat (List.length l))
                        - Z.min start (Z.of_nat (List.length l))))
        (skipn (Z.to_nat (Z.min start (Z.of_nat (List.length l)))) l).
Proof.
  intros Hs He. unfold py_slice, slice_bound.
  destruct (Z.ltb_spec start 0); [lia |].
  destruct (Z.ltb_spec stop 0); [lia |].
  reflexivity.
Qed.

(** X9.  Every line of the source window carries the number of a line of
    the file and that line's text: whatever the current line and the size
    of the file, a numbered line [(n, code)] of the window has [n] between
    1 and the length of the file and within [source_code_lines // 2] of
    the current line, and [code] is line [n] of the file.  The window has
    at most [2 * (source_code_lines // 2) + 1] lines, and it holds the
    current line whenever the file has that line. *)
Theorem source_window_lines (cfg : Config) (closest_line : Z)
    (source : list string) :
  (0 <= source_code_lines cfg)%Z ->
  (0 <= closest_line)%Z ->
  let half := (source_code_lines cfg / 2)%Z in
  let numbered := snd (source_window cfg closest_line source) in
  Forall (fun nl =>
            (1 <= fst nl <= Z.of_nat (List.length source))%Z /\
            (closest_line - half <= fst nl <= closest_line + half)%Z /\
            nth_error source (Z.to_nat (fst nl - 1)) = Some (snd nl))
         numbered /\
  (Z.of_nat (List.length numbered) <= 2 * half + 1)%Z /\
  ((1 <= closest_line <= Z.of_nat (List.length source))%Z ->
   In closest_line (map fst numbered)).
Proof.
  intros Hn Hline half numbered.
  assert (Hhalf : (0 <= half)%Z) by (apply Z.div_pos; lia).
  assert (Hcurrent : (1 <= closest_line <= Z.of_nat (List.length source))%Z ->
                     In closest_line (map fst numbered)).
  { intros Hin_file.
    destruct (source_window_span cfg closest_line source Hn Hin_file) as [_ Hspan].
    unfold numbered. rewrite Hspan. apply Zseq_In. fold half. lia. }
  split; [| split; [| exact Hcurrent]]; clear Hcurrent;
    unfold numbered, source_window; cbn [snd]; fold half;
    set (start := Z.max (closest_line - 1 - half) 0);
    set (stop := Z.min (closest_line - 1 + half + 1) (Z.of_nat (List.length source)));
    assert (Hstart : (0 <= start)%Z) by (unfold start; lia);
    assert (Hstop : (0 <= stop)%Z) by (unfold stop; lia);
    rewrite (py_slice_nonneg source start stop Hstart Hstop).
  - apply Forall_forall. intros [ln code] Hin. cbn [fst snd].
    apply enumerate_In in Hin as (i & Hln & Hnth).
    rewrite nth_error_firstn in Hnth.
    destruct (Nat.ltb_spec i
                (Z.to_nat (Z.min stop (Z.of_nat (List.length source))
                           - Z.min start (Z.of_nat (List.length source)))));
      [| discriminate].
    rewrite nth_error_skipn in Hnth.
    assert (Hsome : (Z.to_nat (Z.min start (Z.of_nat (List.length source))) + i
                     < List.length source)%nat)
      by (apply nth_error_Some; congruence).
    replace (Z.to_nat (ln - 1))
      with (Z.to_nat (Z.min start (Z.of_nat (List.length source))) + i)%nat by lia.
    split; [lia |]. split; [| exact Hnth].
    unfold start, stop in *. lia.
  - rewrite enumerate_length, length_firstn, length_skipn.
    unfold start, stop in *. lia.
Qed.

(** X9 on a file of four lines, with the window around line 3 cut at the
    end of the file. *)
Lemma source_window_lines_witness :
  Forall (fun nl =>
            (1 <= fst nl <= Z.of_nat (List.length ["a"; "b"; "c"; "d"]))%Z /\
            (3 - source_code_lines default_config / 2 <= fst nl
             <= 3 + source_code_lines default_config / 2)%Z /\
            nth_error ["a"; "b"; "c"; "d"] (Z.to_nat (fst nl - 1)) = Some (snd nl))
         (snd (source_window default_config 3 ["a"; "b"; "c"; "d"])) /\
  (Z.of_nat (List.length (snd (source_window default_config 3 ["a"; "b"; "c"; "d"])))
   <= 2 * (source_code_lines default_config / 2) + 1)%Z /\
  In 3%Z (map fst (snd (source_window default_config 3 ["a"; "b"; "c"; "d"]))).
Proof.
  destruct (source_window_lines default_config 3 ["a"; "b"; "c"; "d"])
    as (Hlines & Hcount & Hcurrent).
  - discriminate.
  - discriminate.
  - split; [exact Hlines |]. split; [exact Hcount |].
    apply Hcurrent. split; discriminate.
Defined.

(** ** The backtrace window on a well-formed chain *)

Section ChainWalk.

Variable len : nat.
Variable selected : nat.
Variable pc : nat -> Z.
Variable sym : Z -> string.

Local Abbreviation fr := (chain len selected pc sym).

Lemma walk_older_chain (n : nat) :
  forall frame, (frame < len)%nat ->
    walk_older fr n frame = inr (Nat.min (frame + n) (len - 1)).
Proof.
  induction n as [| n IH]; intros frame Hframe; simpl.
  - f_equal. lia.
  - destruct (Nat.ltb_spec (S frame) len).
    + rewrite IH by lia. f_equal. lia.
    + f_equal. lia.
Qed.

Lemma walk_newer_chain (n : nat) :
  forall frame, (frame < len)%nat ->
    walk_newer fr n frame = inr (frame - n)%nat.
Proof.
  induction n as [| n IH]; intros frame Hframe; simpl.
  - f_equal. lia.
  - destruct frame as [| frame']; [reflexivity |].
    destruct (Nat.ltb_spec (S frame') len); [| lia].
    rewrite IH by lia. reflexivity.
Qed.

Lemma bt_frames_chain (oldest_frame : nat) (fuel : nat) :
  forall frame,
    (frame <= oldest_frame < len)%nat ->
    (oldest_frame - frame < fuel)%nat ->
    bt_frames fr oldest_frame fuel frame
      = Some (inr (seq frame (oldest_frame - frame + 1))).
Proof.
  induction fuel as [| fuel IH]; intros frame Hframe Hfuel; [lia |].
  simpl. destruct (Nat.eqb_spec frame oldest_frame) as [-> | Hne].
  - rewrite Nat.sub_diag. reflexivity.
  - destruct (Nat.ltb_spec (S frame) len); [| lia].
    rewrite IH by lia.
    replace (oldest_frame - frame + 1)%nat
      with (S (oldest_frame - S frame + 1)) by lia.
    reflexivity.
Qed.

(** X10.  On a well-formed chain of [len] frames the walker shows the
    frames from [frame_count] levels below the selected one to
    [frame_count] levels above it, cut at the innermost and the outermost
    frame, in order from the newest to the oldest; the frame labels count
    from 0 at the newest frame shown, not from gdb's frame level 0.  A
    [frame_count] of zero or less shows the selected frame alone. *)
Theorem backtrace_on_chain (cfg : Config) (ui : Ui) (fuel : nat)
    (frame_count : Z) (with_banner : bool) :
  (selected < len)%nat ->
  let newest_frame := (selected - Z.to_nat frame_count)%nat in
  let oldest_frame := Nat.min (selected + Z.to_nat frame_count) (len - 1) in
  (oldest_frame - newest_frame < fuel)%nat ->
  context_backtrace cfg ui fr fuel frame_count with_banner
    = Some (inr ((if with_banner then [banner ui "backtrace"] else [])
                   ++ map (fun '(i, frame) => bt_line cfg ui fr selected frame i)
                          (enumerate
                             (seq newest_frame (oldest_frame - newest_frame + 1))
                             0))).
Proof.
  intros Hsel newest_frame oldest_frame Hfuel.
  unfold context_backtrace. cbn [selected_frame chain].
  rewrite walk_older_chain, walk_newer_chain by exact Hsel.
  fold newest_frame oldest_frame.
  rewrite bt_loop_frames.
  rewrite bt_frames_chain by (unfold newest_frame, oldest_frame in *; lia).
  reflexivity.
Qed.

End ChainWalk.

(** X10 on a chain of five frames with the middle one selected and one
    frame of context on either side. *)
Lemma backtrace_on_chain_witness :
  context_backtrace default_config plain_ui
      (chain 5 2 (fun f => Z.of_nat f) (fun _ => "")) 3 1 false
    = Some (inr ((if false then [banner plain_ui "backtrace"] else [])
                   ++ map (fun '(i, frame) =>
                             bt_line default_config plain_ui
                               (chain 5 2 (fun f => Z.of_nat f) (fun _ => ""))
                               2%nat frame i)
                          (enumerate
                             (seq (2 - Z.to_nat 1)
                                (Nat.min (2 + Z.to_nat 1) (5 - 1)
                                 - (2 - Z.to_nat 1) + 1))
                             0))).
Proof.
  apply (backtrace_on_chain 5 2 (fun f => Z.of_nat f) (fun _ => "")
           default_config plain_ui 3 1 false).
  - simpl. lia.
  - simpl. lia.
Defined.

(** ** Memory errors during the walk *)

(** X11.  A [gdb.MemoryError] is caught in one place only.  Raised by
    [older()] while the walker looks back for the oldest frame, it ends
    the look-back where it stands: with no newer frame either, the
    backtrace is the single line of the selected frame.  Raised by
    [older()] inside the printing loop, on a newer frame whose caller
    cannot be read, it is the walker's own exception and no line is
    returned. *)
Theorem backtrace_memory_error {Frame : Type} (cfg : Config) (ui : Ui)
    (fr : Frames Frame) (fuel : nat) (frame_count : Z) (with_banner : bool) :
  (forall f, frame_eqb fr f f = true) ->
  (1 <= fuel)%nat ->
  (older fr (selected_frame fr) = inl MemoryError ->
   newer fr (selected_frame fr) = inr None ->
   context_backtrace cfg ui fr fuel frame_count with_banner
     = Some (inr ((if with_banner then [banner ui "backtrace"] else [])
                    ++ [bt_line cfg ui fr (selected_frame fr) (selected_frame fr) 0]))) /\
  (forall newer_frame,
     older fr (selected_frame fr) = inr None ->
     newer fr (selected_frame fr) = inr (Some newer_frame) ->
     newer fr newer_frame = inr None ->
     frame_eqb fr newer_frame (selected_frame fr) = false ->
     older fr newer_frame = inl MemoryError ->
     (0 < frame_count)%Z ->
     context_backtrace cfg ui fr fuel frame_count with_banner
       = Some (inl MemoryError)).
Proof.
  intros Hrefl Hfuel.
  destruct fuel as [| fuel]; [lia |]. split.
  - intros Hold Hnew. unfold context_backtrace.
    assert (Ho : walk_older fr (Z.to_nat frame_count) (selected_frame fr)
                 = inr (selected_frame fr))
      by (destruct (Z.to_nat frame_count); simpl; [| rewrite Hold]; reflexivity).
    assert (Hn : walk_newer fr (Z.to_nat frame_count) (selected_frame fr)
                 = inr (selected_frame fr))
      by (destruct (Z.to_nat frame_count); simpl; [| rewrite Hnew]; reflexivity).
    rewrite Ho, Hn. simpl. rewrite Hrefl. reflexivity.
  - intros newer_frame Hold Hnew Hend Hne Hfault Hcount. unfold context_backtrace.
    destruct (Z.to_nat frame_count) as [| n] eqn:Hn; [lia |].
    simpl. rewrite Hold, Hnew.
    assert (Hw : walk_newer fr n newer_frame = inr newer_frame)
      by (destruct n; simpl; [| rewrite Hend]; reflexivity).
    rewrite Hw. simpl. rewrite Hne, Hfault. reflexivity.
Qed.

(** X11 on the two chains with an unreadable caller. *)
Lemma backtrace_memory_error_witness :
  context_backtrace default_config plain_ui unreadable_caller 1 10 false
    = Some (inr ((if false then [banner plain_ui "backtrace"] else [])
                   ++ [bt_line default_config plain_ui unreadable_caller
                         (selected_frame unreadable_caller)
                         (selected_frame unreadable_caller) 0])) /\
  context_backtrace default_config plain_ui unreadable_inner 1 10 false
    = Some (inl MemoryError).
Proof.
  split.
  - apply (backtrace_memory_error default_config plain_ui unreadable_caller 1 10 false).
    + intros f. apply Nat.eqb_refl.
    + lia.
    + reflexivity.
    + reflexivity.
  - apply (proj2 (backtrace_memory_error default_config plain_ui unreadable_inner
                    1 10 false (fun f => Nat.eqb_refl f) (le_n 1)) 0%nat);
      reflexivity.
Defined.

(** ** Validation of the section order *)

Lemma str_in_In (x : string) (l : list string) :
  str_in x l = true <-> In x l.
Proof.
  induction l as [| y l IH]; simpl.
  - split; [discriminate | contradiction].
  - rewrite orb_true_iff, IH, String.eqb_eq. intuition congruence.
Qed.

Lemma first_invalid_none (sections : list string) :
  first_invalid sections = None ->
  Forall (fun section => In section valid_values) sections.
Proof.
  induction sections as [| section rest IH]; intros H.
  - constructor.
  - cbn [first_invalid] in H.
    destruct (str_in section valid_values) eqn:Hin; [| discriminate].
    constructor; [apply str_in_In, Hin | apply IH, H].
Qed.

(** X12.  Whatever value the section order is set to, the value that
    validation leaves behind is valid: each of its tokens is the name of
    a section.  The value is kept as it was set, silently, or replaced by
    the empty order or by the default order, with a warning; and
    validating the value left behind changes it no more. *)
Theorem validated_sections_are_valid (warn : string -> string) (value : string) :
  let kept := fst (validate_context_sections warn value) in
  Forall (fun section => In section valid_values) (split kept) /\
  match snd (validate_context_sections warn value) with
  | [] => kept = value
  | _ => kept = "" \/ kept = default_context_sections
  end /\
  fst (validate_context_sections warn kept) = kept.
Proof.
  unfold validate_context_sections.
  destruct (String.eqb value "" || str_in (py_lower value) ["none"; "empty"])
    eqn:Hempty.
  - cbn [fst snd]. split; [constructor |]. split; [left |]; reflexivity.
  - destruct (first_invalid (split value)) as [section |] eqn:Hinvalid; cbn [fst snd].
    + split; [| split; [right |]; reflexivity].
      apply first_invalid_none. vm_compute. reflexivity.
    + split; [apply first_invalid_none, Hinvalid |].
      split; [reflexivity |]. rewrite Hempty, Hinvalid. reflexivity.
Qed.

(** The tokens of a valid section order reduce to section keys. *)
Lemma valid_tokens_known (cfg : Config) (tokens : list string) :
  Forall (fun section => In section valid_values) tokens ->
  exists ks, first_chars tokens = inr ks /\ Forall (known_key cfg) ks.
Proof.
  induction 1 as [| token rest Hvalid _ IH].
  - exists []. split; [reflexivity | constructor].
  - destruct IH as (ks & Hks & Hknown). cbn [first_chars]. rewrite Hks.
    assert (Hfirst : exists k, first_char token = inr k /\ known_key cfg k).
    { simpl in Hvalid.
      destruct Hvalid as [<- | [<- | [<- | [<- | [<- | [<- | []]]]]]];
        eexists; (split; [reflexivity | discriminate]). }
    destruct Hfirst as (k & -> & Hk). exists (k :: ks).
    split; [reflexivity | constructor; assumption].
Qed.

(** The tokens of the value that validation leaves behind reduce to
    section keys, in every configuration. *)
Lemma validated_sections_valid_tokens (warn : string -> string) (value : string) :
  forall cfg,
  exists ks,
    first_chars (split (fst (validate_context_sections warn value))) = inr ks /\
    Forall (known_key cfg) ks.
Proof.
  intros cfg. apply valid_tokens_known.
  unfold validate_context_sections.
  destruct (String.eqb value "" || str_in (py_lower value) ["none"; "empty"]).
  - constructor.
  - destruct (first_invalid (split value)) as [section |] eqn:Hinvalid; cbn [fst].
    + apply first_invalid_none. vm_compute. reflexivity.
    + apply first_invalid_none, Hinvalid.
Qed.

(** X13.  Validation protects the refresh: with the section order that
    validation leaves behind, every token of a refresh without arguments
    is non-empty and reduces to a section key, so that neither [a[0]] nor
    the lookup of the destination raises.  Such a refresh returns its
    batches exactly when standard output is a terminal and every
    requested producer returns; otherwise it raises the [OSError] of
    [os.ttyname] (every requested producer having returned) or an
    exception that a requested producer raised. *)
Theorem validated_order_refreshes (cfg : Config) (ui : Ui) (sys : System)
    (p : Rendered) (g : Globals) (warn : string -> string) (value : string) :
  let cfg' := with_sections cfg (fst (validate_context_sections warn value)) in
  exists ks,
    first_chars (requested_args cfg' None) = inr ks /\
    Forall (known_key cfg') ks /\
    match context_batches cfg' ui sys p g None with
    | inr _ => ttyname1 sys <> None /\ Forall (returns p) ks
    | inl e =>
        (e = OSError /\ ttyname1 sys = None /\ Forall (returns p) ks) \/
        (exists key, In key ks /\ raises p key e)
    end /\
    (ttyname1 sys <> None -> Forall (returns p) ks ->
     exists batches, context_batches cfg' ui sys p g None = inr batches).
Proof.
  intros cfg'.
  destruct (validated_sections_valid_tokens warn value cfg') as (ks & Hks & Hknown).
  assert (Hreq : requested_args cfg' None
                 = split (fst (validate_context_sections warn value)))
    by reflexivity.
  rewrite <- Hreq in Hks.
  exists ks. split; [exact Hks |]. split; [exact Hknown |].
  pose proof (context_batches_known cfg' ui sys p g None ks Hks Hknown) as H.
  split; [exact H |].
  intros Htty Hall.
  destruct (context_batches cfg' ui sys p g None) as [e | batches]; [| eauto].
  destruct H as [(_ & Hnone & _) | (key & Hin & Hraise)].
  - contradiction.
  - destruct (returns_not_raises p ks key e Hall Hin Hraise).
Qed.

(** ** The register listing *)

Lemma regs_loop_listed (rui : RegsUi) (rs : Registers) (regs : list (option string)) :
  regs_loop rui rs regs = map (reg_line rui rs) (listed rs regs).
Proof.
  unfold listed. induction regs as [| [reg |] rest IH]; simpl.
  - reflexivity.
  - destruct (regs_known rs reg); simpl; rewrite IH; reflexivity.
  - exact IH.
Qed.

Lemma listed_app (rs : Registers) (a b : list (option string)) :
  listed rs (a ++ b) = listed rs a ++ listed rs b.
Proof.
  unfold listed. rewrite flat_map_app, filter_app. reflexivity.
Qed.

Lemma listed_length (rs : Registers) (regs : list (option string)) :
  (List.length (listed rs regs) <= List.length regs)%nat.
Proof.
  unfold listed. induction regs as [| [reg |] rest IH]; simpl.
  - lia.
  - destruct (regs_known rs reg); simpl; lia.
  - lia.
Qed.

(** X14.  A listing of explicitly given registers has one line per
    register that is named and known to the backend, in the order given:
    an unknown register and a missing one give no line, not a blank one,
    and do not end the listing; a register given twice is listed
    twice. *)
Theorem get_regs_lists_known_registers (show_retaddr_reg : bool) (rui : RegsUi)
    (rs : Registers) (regs : list (option string)) :
  regs <> [] ->
  get_regs show_retaddr_reg false rui rs regs
    = map (reg_line rui rs) (listed rs regs) /\
  (List.length (get_regs show_retaddr_reg false rui rs regs)
   <= List.length regs)%nat.
Proof.
  intros Hregs.
  assert (H : get_regs show_retaddr_reg false rui rs regs
              = map (reg_line rui rs) (listed rs regs)).
  { unfold get_regs. destruct regs as [| reg rest]; [contradiction |].
    cbn [andb]. apply regs_loop_listed. }
  split; [exact H |]. rewrite H, length_map. apply listed_length.
Qed.

(** X14 on a listing with an unknown and a missing register. *)
Lemma get_regs_lists_known_registers_witness :
  get_regs false false plain_regs_ui amd64_regs
      [Some "rax"; Some "xyz"; None; Some "rip"; Some "rax"]
    = map (reg_line plain_regs_ui amd64_regs)
        (listed amd64_regs [Some "rax"; Some "xyz"; None; Some "rip"; Some "rax"]) /\
  (List.length (get_regs false false plain_regs_ui amd64_regs
                  [Some "rax"; Some "xyz"; None; Some "rip"; Some "rax"])
   <= List.length [Some "rax"; Some "xyz"; None; Some "rip"; Some "rax"])%nat.
Proof.
  apply (get_regs_lists_known_registers false plain_regs_ui amd64_regs
           [Some "rax"; Some "xyz"; None; Some "rip"; Some "rax"]).
  discriminate.
Defined.

(** X15.  With [show-flags] set, the lines of the known flag registers
    are appended to every listing, to a listing of explicitly given
    registers as much as to the default one of the registers section:
    the listing is the one made without the parameter, followed by those
    lines. *)
Theorem show_flags_appends_flag_registers (show_retaddr_reg : bool)
    (ui : Ui) (rui : RegsUi) (rs : Registers) (regs : list (option string)) :
  get_regs show_retaddr_reg true rui rs regs
    = get_regs show_retaddr_reg false rui rs regs
        ++ map (reg_line rui rs) (filter (regs_known rs) (regs_flags rs)) /\
  context_regs show_retaddr_reg true ui rui rs
    = context_regs show_retaddr_reg false ui rui rs
        ++ map (reg_line rui rs) (filter (regs_known rs) (regs_flags rs)).
Proof.
  assert (Hflags : listed rs (map Some (regs_flags rs))
                   = filter (regs_known rs) (regs_flags rs)).
  { unfold listed. f_equal. induction (regs_flags rs) as [| f fs IH]; simpl;
      [| rewrite IH]; reflexivity. }
  assert (Hget : forall l,
            get_regs show_retaddr_reg true rui rs l
              = get_regs show_retaddr_reg false rui rs l
                  ++ map (reg_line rui rs) (filter (regs_known rs) (regs_flags rs))).
  { intros l. unfold get_regs.
    rewrite !regs_loop_listed, listed_app, map_app, Hflags. reflexivity. }
  split; [apply Hget |]. unfold context_regs. rewrite Hget. reflexivity.
Qed.

(** ** The disassembly section *)

Lemma pad_loop_pads (code_lines : Z) (fuel : nat) :
  forall result,
    (Z.to_nat (code_lines + 1 - Z.of_nat (List.length result)) < fuel)%nat ->
    pad_loop fuel code_lines result
      = Some (result
                ++ repeat "" (Z.to_nat (code_lines + 1 - Z.of_nat (List.length result)))).
Proof.
  induction fuel as [| fuel IH]; intros result Hfuel; [lia |].
  cbn [pad_loop].
  destruct (Z.ltb_spec (Z.of_nat (List.length result)) (code_lines + 1)).
  - rewrite IH by (rewrite length_app; simpl; lia).
    rewrite length_app. cbn [List.length].
    replace (Z.to_nat (code_lines + 1 - Z.of_nat (List.length result)))
      with (S (Z.to_nat (code_lines + 1 - Z.of_nat (List.length result + 1))))
      by lia.
    cbn [repeat]. rewrite <- app_assoc. reflexivity.
  - replace (Z.to_nat (code_lines + 1 - Z.of_nat (List.length result)))
      with 0%nat by lia.
    cbn [repeat]. rewrite app_nil_r. reflexivity.
Qed.

(** X16.  The disassembly section keeps its height: the padding loop ends
    (after as many turns as lines are missing), and the section is the
    banner, every line that [nearpc] returned, and as many empty lines as
    it takes to reach [code_lines + 1] below the banner.  Nothing of the
    disassembly is cut when [nearpc] returns more than that. *)
Theorem disasm_section_is_padded (ui : Ui) (emulate : bool) (code_lines : Z)
    (nearpc : bool -> Z -> list string) (fuel : nat) :
  let lines := nearpc emulate (code_lines / 2)%Z in
  let missing := Z.to_nat (code_lines + 1 - Z.of_nat (List.length lines)) in
  (missing < fuel)%nat ->
  context_disasm ui emulate code_lines nearpc fuel
    = Some (banner ui "disasm" :: lines ++ repeat "" missing) /\
  List.length (lines ++ repeat "" missing)
    = Nat.max (List.length lines) (Z.to_nat (code_lines + 1)).
Proof.
  intros lines missing Hfuel. split.
  - unfold context_disasm. fold lines.
    rewrite (pad_loop_pads code_lines fuel lines Hfuel). reflexivity.
  - rewrite length_app, repeat_length. unfold missing. lia.
Qed.

(** X16 with two instructions disassembled and ten code lines
    configured. *)
Lemma disasm_section_is_padded_witness :
  context_disasm plain_ui true 10 (fun _ _ => ["mov"; "ret"]) 10
    = Some (banner plain_ui "disasm"
              :: ["mov"; "ret"]
              ++ repeat "" (Z.to_nat (10 + 1 - Z.of_nat (List.length ["mov"; "ret"])))) /\
  List.length
    (["mov"; "ret"]
       ++ repeat "" (Z.to_nat (10 + 1 - Z.of_nat (List.length ["mov"; "ret"]))))
    = Nat.max (List.length ["mov"; "ret"]) (Z.to_nat (10 + 1)).
Proof.
  apply (disasm_section_is_padded plain_ui true 10 (fun _ _ => ["mov"; "ret"]) 10).
  simpl. lia.
Defined.

(** ** The cached source *)

Lemma rstrip_no_trailing_space (s : string) : ends_in_space (rstrip s) = false.
Proof.
  induction s as [| c rest IH]; [reflexivity |].
  cbn [rstrip]. destruct (rstrip rest) as [| c' kept].
  - destruct (is_space c) eqn:Hc; simpl; [reflexivity | exact Hc].
  - exact IH.
Qed.

Lemma rstrip_no_linebreak (s : string) :
  has_linebreak s = false -> has_linebreak (rstrip s) = false.
Proof.
  induction s as [| c rest IH]; [reflexivity |].
  cbn [has_linebreak rstrip]. intros H.
  apply orb_false_iff in H as [Hc Hrest]. specialize (IH Hrest).
  destruct (rstrip rest) as [| c' kept].
  - destruct (is_space c); simpl; [reflexivity | rewrite Hc; reflexivity].
  - cbn [has_linebreak] in *. rewrite Hc. exact IH.
Qed.

Lemma has_linebreak_app_char (l : list ascii) (c : ascii) :
  has_linebreak (string_of_list_ascii (l ++ [c]))
    = has_linebreak (string_of_list_ascii l) || is_linebreak c.
Proof.
  induction l as [| d l IH]; simpl.
  - apply orb_false_r.
  - rewrite IH. apply orb_assoc.
Qed.

(** Reading on from [s] with the line [cur] under way, every line that
    [splitlines] returns is free of line breaks when [cur] is. *)
Lemma splitlines_aux_no_linebreak (n : nat) :
  forall (s : string) (cur : list ascii),
    (String.length s <= n)%nat ->
    has_linebreak (string_of_list_ascii (rev cur)) = false ->
    Forall (fun l => has_linebreak l = false) (splitlines_aux s cur).
Proof.
  induction n as [| n IH]; intros s cur Hlen Hcur.
  - destruct s; [| simpl in Hlen; lia]. simpl.
    destruct cur; [constructor | repeat constructor; exact Hcur].
  - destruct s as [| c rest].
    + simpl. destruct cur; [constructor | repeat constructor; exact Hcur].
    + simpl in Hlen. cbn [splitlines_aux].
      destruct (is_linebreak c) eqn:Hc.
      * constructor; [exact Hcur |].
        destruct rest as [| c2 rest2].
        -- simpl. constructor.
        -- simpl in Hlen.
           destruct (Ascii.eqb c "013" && Ascii.eqb c2 "010")%bool;
             apply IH; simpl; try lia; reflexivity.
      * apply IH; [lia |]. cbn [rev].
        rewrite has_linebreak_app_char, Hcur, Hc. reflexivity.
Qed.

(** X17.  The lines that [get_highlight_source] hands to the source
    window are clean: no line ends in whitespace and no line holds a line
    break, whatever the file holds and whatever the highlighter makes of
    it.  The function returns whenever the file is read, and raises
    exactly what reading the file raises: an [IOError], which the caller
    turns into an empty source window, or a [UnicodeDecodeError], which
    the caller lets through. *)
Theorem cached_source_lines_are_clean (syntax_highlight : bool)
    (H_syntax_highlight : string -> string -> string)
    (read_file : string -> Exn + string) (filename : string)
    (cfg : Config) (ui : Ui) (closest_line : Z) :
  let get_source :=
    get_highlight_source syntax_highlight H_syntax_highlight read_file in
  let sal := {| symtab := Some filename; line := closest_line |} in
  match get_source filename with
  | inr lines =>
      (exists source, read_file filename = inr source) /\
      Forall (fun l => ends_in_space l = false /\ has_linebreak l = false) lines
  | inl e =>
      read_file filename = inl e /\
      get_filename_and_formatted_source cfg ui sal get_source
        = (if is_IOError e then inr ("", []) else inl e)
  end.
Proof.
  intros get_source sal. unfold get_source, get_filename_and_formatted_source.
  cbn [symtab sal]. unfold get_highlight_source.
  destruct (read_file filename) as [e | source]; [split; reflexivity |].
  split; [eauto |].
  set (text := if syntax_highlight then H_syntax_highlight source filename else source).
  apply Forall_map.
  pose proof (splitlines_aux_no_linebreak (String.length text) text []
                (le_n _) eq_refl) as Hlines.
  eapply Forall_impl; [| exact Hlines].
  intros l Hl. split; [apply rstrip_no_trailing_space | apply rstrip_no_linebreak, Hl].
Qed.

(** X17 on a file that is no UTF-8, on a file that cannot be read and on
    a file whose lines end in a no-break space and a next-line control:
    the first read's error reaches the caller of the code section, the
    second gives an empty section, and the third gives the two lines
    without their trailing whitespace. *)
Lemma cached_source_examples :
  context_code default_config plain_ui {| symtab := Some "latin1.c"; line := 1 |}
      (get_highlight_source false (fun source _ => source)
         (fun _ => inl UnicodeDecodeError))
      false (fun _ _ => None) 0
    = inl UnicodeDecodeError /\
  context_code default_config plain_ui {| symtab := Some "gone.c"; line := 1 |}
      (get_highlight_source false (fun source _ => source) (fun _ => inl IOError))
      false (fun _ _ => None) 0
    = inr [] /\
  get_highlight_source false (fun source _ => source)
      (fun _ => inr (String "a" (String "160" (String "133" (String "b" (String "009" ""))))))
      "main.c"
    = inr ["a"; "b"].
Proof. repeat split. Qed.

(** ** The code section *)

Lemma splitlines_aux_nonempty (s : string) :
  forall cur, s <> "" \/ cur <> [] -> splitlines_aux s cur <> [].
Proof.
  induction s as [| c rest IH]; intros cur Hsome.
  - simpl. destruct cur; [| discriminate].
    destruct Hsome as [H | H]; contradiction.
  - cbn [splitlines_aux]. destruct (is_linebreak c); [discriminate |].
    apply IH. right. discriminate.
Qed.

(** X18.  The code section is never a banner alone, and the decompiler is
    a fallback only.  When the section is returned and is not empty, it
    is a banner followed by at least one line: the source banner, the file
    name and the source window, or the pseudocode banner and the lines of
    the pseudocode.  When the source window has lines, the section does
    not depend on the decompiler: whether it is available and what it
    returns.  The section raises only what the reader of the source
    raises and the [except IOError] does not catch. *)
Theorem code_section_shape (cfg : Config) (ui : Ui) (sal : Sal)
    (get_source : string -> Exn + list string)
    (ida_available : bool) (decompile_context : Z -> Z -> option string)
    (pc : Z) :
  match context_code cfg ui sal get_source ida_available decompile_context pc with
  | inr [] => True
  | inr (first :: rest) =>
      rest <> [] /\
      (first = banner ui "Source (code)" \/ first = banner ui "Hexrays pseudocode")
  | inl e =>
      exists filename,
        symtab sal = Some filename /\ get_source filename = inl e /\
        is_IOError e = false
  end /\
  (forall filename formatted_source,
     get_filename_and_formatted_source cfg ui sal get_source
       = inr (filename, formatted_source) ->
     formatted_source <> [] ->
     forall ida_available' decompile_context' pc',
       context_code cfg ui sal get_source ida_available decompile_context pc
         = context_code cfg ui sal get_source ida_available' decompile_context' pc').
Proof.
  unfold context_code.
  destruct (get_filename_and_formatted_source cfg ui sal get_source)
    as [e | [filename [| l formatted]]] eqn:Hsource.
  - split; [| intros f fs H; discriminate].
    unfold get_filename_and_formatted_source in Hsource.
    destruct (symtab sal) as [filename |]; [| discriminate].
    exists filename. split; [reflexivity |].
    destruct (get_source filename) as [e' | [| l source]]; try discriminate.
    destruct (is_IOError e') eqn:Hio; [discriminate |].
    inversion Hsource; subst e'. auto.
  - split; [| intros f fs H Hne; inversion H; subst; contradiction].
    destruct ida_available; cbn [negb]; [| exact I].
    destruct (decompile_context pc _) as [code |]; [| exact I].
    destruct (String.eqb code "") eqn:Hcode; cbn [negb]; [exact I |].
    apply String.eqb_neq in Hcode.
    pose proof (splitlines_aux_nonempty code [] (or_introl Hcode)) as Hlines.
    cbn [app]. split; [exact Hlines | right; reflexivity].
  - split.
    + cbn [app]. split; [discriminate | left; reflexivity].
    + intros f fs _ _ a d q. reflexivity.
Qed.

(** X18 where the source window has lines. *)
Lemma code_section_shape_witness :
  context_code default_config plain_ui {| symtab := Some "main.c"; line := 2 |}
      (fun _ => inr ["int main() {"; "  return 0;"; "}"]) true
      (fun _ _ => Some "pseudo") 0
    = context_code default_config plain_ui {| symtab := Some "main.c"; line := 2 |}
        (fun _ => inr ["int main() {"; "  return 0;"; "}"]) false
        (fun _ _ => None) 1.
Proof.
  eapply (proj2 (code_section_shape default_config plain_ui
                   {| symtab := Some "main.c"; line := 2 |}
                   (fun _ => inr ["int main() {"; "  return 0;"; "}"]) true
                   (fun _ _ => Some "pseudo") 0)).
  - reflexivity.
  - discriminate.
Defined.

(** ** The tokens of the section order *)

Lemma has_space_app_char (l : list ascii) (c : ascii) :
  has_space (string_of_list_ascii (l ++ [c]))
    = has_space (string_of_list_ascii l) || is_space c.
Proof.
  induction l as [| d l IH]; simpl.
  - apply orb_false_r.
  - rewrite IH. apply orb_assoc.
Qed.

Lemma string_of_snoc_nonempty (l : list ascii) (c : ascii) :
  string_of_list_ascii (l ++ [c]) <> "".
Proof.
  destruct l; discriminate.
Qed.

Lemma split_aux_tokens (s : string) :
  forall cur,
    has_space (string_of_list_ascii (rev cur)) = false ->
    Forall (fun token => token <> "" /\ has_space token = false) (split_aux s cur).
Proof.
  assert (Hflush : forall cur,
            has_space (string_of_list_ascii (rev cur)) = false ->
            Forall (fun token => token <> "" /\ has_space token = false)
              match cur with
              | [] => []
              | _ => [string_of_list_ascii (rev cur)]
              end).
  { intros [| c cur] Hcur; constructor; [| constructor].
    split; [apply string_of_snoc_nonempty | exact Hcur]. }
  induction s as [| c rest IH]; intros cur Hcur; cbn [split_aux].
  - apply Hflush, Hcur.
  - destruct (is_space c) eqn:Hc.
    + apply Forall_app. split; [apply Hflush, Hcur | apply IH; reflexivity].
    + apply IH. cbn [rev]. rewrite has_space_app_char, Hcur, Hc. reflexivity.
Qed.

(** X19.  The tokens of a section order are never empty and hold no
    whitespace, however the order is spaced; so in a refresh without
    arguments, which takes its tokens from the configured order, [a[0]]
    finds a first character in every token, validated or not: an
    [IndexError] comes from an empty argument of the command only, or
    else from the producer of a requested section. *)
Theorem section_order_tokens (cfg : Config) (ui : Ui) (sys : System)
    (p : Rendered) (g : Globals) :
  Forall (fun token => token <> "" /\ has_space token = false)
    (split (config_context_sections cfg)) /\
  (exists ks, first_chars (requested_args cfg None) = inr ks) /\
  (context_batches cfg ui sys p g None = inl IndexError ->
   exists ks key,
     first_chars (requested_args cfg None) = inr ks /\ In key ks /\
     raises p key IndexError).
Proof.
  pose proof (split_aux_tokens (config_context_sections cfg) [] eq_refl) as Htokens.
  split; [exact Htokens |].
  assert (Hnonempty : ~ Exists (fun a => a = "") (requested_args cfg None)).
  { intros H. apply Exists_exists in H as (token & Hin & Hempty).
    unfold split in Htokens. rewrite Forall_forall in Htokens.
    destruct (Htokens token Hin) as [Hne _]. contradiction. }
  split.
  - pose proof (first_chars_cases (requested_args cfg None)) as Hfirst.
    destruct (first_chars (requested_args cfg None)) as [e | ks]; [| eauto].
    destruct e; try contradiction.
  - intros Hraise.
    pose proof (context_batches_cases cfg ui sys p g None) as H.
    cbv zeta in H. rewrite Hraise in H.
    destruct H as [[_ H] | [(ks & front & key & back & _ & _ & _ & _ & H)
                          | [(ks & key & Hks & Hin & Hr) | [H _]]]].
    + contradiction.
    + discriminate.
    + eauto.
    + discriminate.
Qed.
